(** * ArbitrageEdge: the arbitrage calculator, the on-demand refresh cache
      and the match identifier, embedded from the JavaScript sources.

    Numbers.  A JavaScript number is modelled by [num]: an exact rational,
    one of the two infinities, or NaN.  The special values follow IEEE-754 as
    JavaScript exposes it ([1 / 0] is [Infinity], [0 / 0] is [NaN], every
    comparison with [NaN] is false).  The rounding error of binary floating
    point on finite values is idealised away: finite arithmetic is exact.
    Signed zeros are not distinguished; every zero that reaches a division
    as denominator in this program is the literal [0] (positive zero). *)

From Stdlib Require Import ZArith QArith Qround Qabs Lia Lqa List Bool String Ascii DecimalString.
Import ListNotations.

Local Open Scope Q_scope.

(** ** JavaScript numbers *)

Module JS.

Inductive num : Type :=
| Fin (q : Q)
| PInf
| NInf
| NaN.

(** [a > b] *)
Definition gt (a b : num) : bool :=
  match a, b with
  | NaN, _ | _, NaN => false
  | NInf, _ => false
  | _, PInf => false
  | PInf, _ => true
  | Fin _, NInf => true
  | Fin x, Fin y => negb (Qle_bool x y)
  end.

(** [a >= b] *)
Definition ge (a b : num) : bool :=
  match a, b with
  | NaN, _ | _, NaN => false
  | PInf, _ => true
  | _, NInf => true
  | NInf, _ => false
  | Fin _, PInf => false
  | Fin x, Fin y => Qle_bool y x
  end.


(** [a === 0] *)
Definition is_zero (a : num) : bool :=
  match a with
  | Fin q => Qeq_bool q 0
  | _ => false
  end.

(** ToBoolean on a number: [0] and [NaN] are falsy. *)
Definition truthy (a : num) : bool :=
  match a with
  | Fin q => negb (Qeq_bool q 0)
  | PInf | NInf => true
  | NaN => false
  end.

Definition neg (a : num) : num :=
  match a with
  | Fin q => Fin (- q)
  | PInf => NInf
  | NInf => PInf
  | NaN => NaN
  end.

Definition add (a b : num) : num :=
  match a, b with
  | NaN, _ | _, NaN => NaN
  | PInf, NInf | NInf, PInf => NaN
  | PInf, _ | _, PInf => PInf
  | NInf, _ | _, NInf => NInf
  | Fin x, Fin y => Fin (x + y)
  end.

Definition sub (a b : num) : num := add a (neg b).

(** sign of a finite value as a comparison: [Lt] negative, [Eq] zero. *)
Definition sgn (q : Q) : comparison := Qcompare q 0.

Definition inf_of_sign (c : comparison) : num :=
  match c with
  | Gt => PInf
  | Lt => NInf
  | Eq => NaN
  end.

Definition flip (c : comparison) : comparison := CompOpp c.

Definition mul (a b : num) : num :=
  match a, b with
  | NaN, _ | _, NaN => NaN
  | Fin x, Fin y => Fin (x * y)
  | PInf, Fin y | Fin y, PInf => inf_of_sign (sgn y)
  | NInf, Fin y | Fin y, NInf => inf_of_sign (flip (sgn y))
  | PInf, PInf | NInf, NInf => PInf
  | PInf, NInf | NInf, PInf => NInf
  end.

(** [a / b]; a zero denominator is the positive zero. *)
Definition div (a b : num) : num :=
  match a, b with
  | NaN, _ | _, NaN => NaN
  | Fin x, Fin y =>
      if Qeq_bool y 0 then inf_of_sign (sgn x) else Fin (x / y)
  | Fin _, (PInf | NInf) => Fin 0
  | PInf, Fin y => if Qle_bool 0 y then PInf else NInf
  | NInf, Fin y => if Qle_bool 0 y then NInf else PInf
  | (PInf | NInf), (PInf | NInf) => NaN
  end.

(** [parseFloat(a.toFixed(2))].  [toFixed] prints a non-finite value by
    name and a magnitude of at least [10^21] in full; below that it picks
    the integer [n] with [n / 100] nearest to the magnitude, the larger one
    on a tie, and keeps the sign. *)
Definition cents (m : Q) : Z := Qfloor (m * 100 + (1 # 2)).

Definition toFixed2 (a : num) : num :=
  match a with
  | Fin q =>
      let m := Qabs q in
      if Qle_bool (inject_Z (10 ^ 21)) m then Fin q
      else if Qle_bool 0 q then Fin (cents m # 100)
      else Fin (- (cents m # 100))
  | other => other
  end.


End JS.
Import JS.

(** ** The arbitrage calculator (calculator/arbitrage: [calculateArbitrage],
       [calculate2WayArbitrage], [calculate3WayArbitrage]) *)

(** A row of the odds table as the calculator reads it. [draw_odds] is
    [null] for two-outcome sports. *)
Record odd : Type := mkOdd {
  team1 : string;
  team2 : string;
  bookmaker : string;
  odds1 : num;
  odds2 : num;
  draw_odds : option num
}.

(** [{ odds, bookmaker }], the running best of one outcome. *)
Record bestOdds : Type := mkBest {
  best_odds : num;
  best_bookmaker : option string
}.

Record bet : Type := mkBet {
  outcome : string;
  bet_bookmaker : option string;
  bet_odds : num;
  stake_pct : num
}.

Record arbitrage : Type := mkArb {
  arb_exists : bool;
  profit_percentage : num;
  bets : list bet
}.

(** A call either returns a value or throws (reading a property of
    [undefined]). *)
Inductive completion (A : Type) : Type :=
| Returns (a : A)
| Throws.
Arguments Returns {A} a.
Arguments Throws {A}.

Definition best0 : bestOdds := mkBest (Fin 0) None.

(** [odds[0].team1] and [odds[0].team2] *)
Definition first_team (f : odd -> string) (odds : list odd) : completion string :=
  match odds with
  | o :: _ => Returns (f o)
  | [] => Throws
  end.

(** [if (odd.oddsK > best.odds) best = { odds: odd.oddsK, bookmaker }] *)
Definition pick (price : num) (o : odd) (b : bestOdds) : bestOdds :=
  if gt price (best_odds b) then mkBest price (Some (bookmaker o)) else b.

(** [if (odd.draw_odds && odd.draw_odds > bestDraw.odds) ...] *)
Definition pick_draw (o : odd) (b : bestOdds) : bestOdds :=
  match draw_odds o with
  | Some d => if truthy d && gt d (best_odds b) then mkBest d (Some (bookmaker o)) else b
  | None => b
  end.

Definition loop2 (odds : list odd) : bestOdds * bestOdds :=
  fold_left
    (fun '(b1, b2) o => (pick (odds1 o) o b1, pick (odds2 o) o b2))
    odds (best0, best0).

Definition calculate2WayArbitrage (odds : list odd) : completion (option arbitrage) :=
  let '(bestOdds1, bestOdds2) := loop2 odds in
  let impliedProb1 := div (Fin 1) (best_odds bestOdds1) in
  let impliedProb2 := div (Fin 1) (best_odds bestOdds2) in
  let totalImpliedProb := add impliedProb1 impliedProb2 in
  if ge totalImpliedProb (Fin 1) then Returns None
  else
    let profitPercentage := mul (sub (div (Fin 1) totalImpliedProb) (Fin 1)) (Fin 100) in
    let stake1Pct := mul (div impliedProb1 totalImpliedProb) (Fin 100) in
    let stake2Pct := mul (div impliedProb2 totalImpliedProb) (Fin 100) in
    match first_team team1 odds, first_team team2 odds with
    | Returns t1, Returns t2 =>
        Returns (Some (mkArb true (toFixed2 profitPercentage)
          [ mkBet t1 (best_bookmaker bestOdds1) (best_odds bestOdds1) (toFixed2 stake1Pct);
            mkBet t2 (best_bookmaker bestOdds2) (best_odds bestOdds2) (toFixed2 stake2Pct) ]))
    | _, _ => Throws
    end.

Definition loop3 (odds : list odd) : bestOdds * bestOdds * bestOdds :=
  fold_left
    (fun '(b1, b2, bd) o =>
       (pick (odds1 o) o b1, pick (odds2 o) o b2, pick_draw o bd))
    odds (best0, best0, best0).

Definition calculate3WayArbitrage (odds : list odd) : completion (option arbitrage) :=
  let '(bestOdds1, bestOdds2, bestDraw) := loop3 odds in
  if is_zero (best_odds bestOdds1) || is_zero (best_odds bestOdds2)
     || is_zero (best_odds bestDraw)
  then Returns None
  else
    let impliedProb1 := div (Fin 1) (best_odds bestOdds1) in
    let impliedProb2 := div (Fin 1) (best_odds bestOdds2) in
    let impliedProbDraw := div (Fin 1) (best_odds bestDraw) in
    let totalImpliedProb := add (add impliedProb1 impliedProb2) impliedProbDraw in
    if ge totalImpliedProb (Fin 1) then Returns None
    else
      let profitPercentage := mul (sub (div (Fin 1) totalImpliedProb) (Fin 1)) (Fin 100) in
      let stake1Pct := mul (div impliedProb1 totalImpliedProb) (Fin 100) in
      let stake2Pct := mul (div impliedProb2 totalImpliedProb) (Fin 100) in
      let stakeDrawPct := mul (div impliedProbDraw totalImpliedProb) (Fin 100) in
      match first_team team1 odds, first_team team2 odds with
      | Returns t1, Returns t2 =>
          Returns (Some (mkArb true (toFixed2 profitPercentage)
            [ mkBet t1 (best_bookmaker bestOdds1) (best_odds bestOdds1) (toFixed2 stake1Pct);
              mkBet "Draw" (best_bookmaker bestDraw) (best_odds bestDraw) (toFixed2 stakeDrawPct);
              mkBet t2 (best_bookmaker bestOdds2) (best_odds bestOdds2) (toFixed2 stake2Pct) ]))
      | _, _ => Throws
      end.

(** [odds.some(o => o.draw_odds && o.draw_odds > 0)] *)
Definition hasDrawOdds (odds : list odd) : bool :=
  existsb
    (fun o => match draw_odds o with
              | Some d => truthy d && gt d (Fin 0)
              | None => false
              end)
    odds.

Definition calculateArbitrage (odds : list odd) : completion (option arbitrage) :=
  if (List.length odds <? 2)%nat then Returns None
  else if hasDrawOdds odds then calculate3WayArbitrage odds
  else calculate2WayArbitrage odds.

(** *** The quantities the contract of the calculator is stated with *)

Inductive side : Type := SideA | SideB | SideDraw.

(** One outcome's pass of the loop over the rows. *)
Definition pick_side (s : side) (o : odd) (b : bestOdds) : bestOdds :=
  match s with
  | SideA => pick (odds1 o) o b
  | SideB => pick (odds2 o) o b
  | SideDraw => pick_draw o b
  end.

(** The pass from a running best [b0]. *)
Definition pass (s : side) (odds : list odd) (b0 : bestOdds) : bestOdds :=
  fold_left (fun b o => pick_side s o b) odds b0.

Definition bestOf (s : side) (odds : list odd) : bestOdds := pass s odds best0.

Definition bestPrice (s : side) (odds : list odd) : num := best_odds (bestOf s odds).

(** The price a row offers for an outcome, when the loop looks at one:
    a [null] draw price is not read. *)
Definition price (s : side) (o : odd) : option num :=
  match s with
  | SideA => Some (odds1 o)
  | SideB => Some (odds2 o)
  | SideDraw => draw_odds o
  end.

(** A price the loop can select: strictly positive (so neither [NaN] nor
    zero). *)
Definition positive (p : num) : bool := gt p (Fin 0).

Definition offers (s : side) (o : odd) : bool :=
  match price s o with
  | Some p => positive p
  | None => false
  end.

Definition impliedProbability (s : side) (odds : list odd) : num :=
  div (Fin 1) (bestPrice s odds).






(** What a pass leaves as best price: the initial [0] or a positive price. *)
Definition best_shape (b : num) : Prop := b = Fin 0 \/ positive b = true.

(** What an implied probability or a sum of them can be. *)
Definition prob_shape (v : num) : Prop :=
  match v with
  | Fin x => 0 <= x
  | PInf => True
  | _ => False
  end.


(** ** Match identifiers (scrapers) *)

(** Strings are sequences of code units below 256 (the Latin-1 part of
    UTF-16), which is where the two JavaScript string methods below are
    modelled. *)
Module Str.

Definition code (c : ascii) : nat := nat_of_ascii c.

(** [String.prototype.toLowerCase], one code unit. *)
Definition lower_char (c : ascii) : ascii :=
  let n := code c in
  if ((65 <=? n) && (n <=? 90))%nat then ascii_of_nat (n + 32)
  else if ((192 <=? n) && (n <=? 222) && negb (n =? 215))%nat then ascii_of_nat (n + 32)
  else c.

Fixpoint toLowerCase (s : string) : string :=
  match s with
  | EmptyString => EmptyString
  | String c r => String (lower_char c) (toLowerCase r)
  end.

(** The class [\s]: tab, line feed, vertical tab, form feed, carriage
    return, space, no-break space. *)
Definition is_space (c : ascii) : bool :=
  let n := code c in
  (((9 <=? n) && (n <=? 13)) || (n =? 32) || (n =? 160))%nat.

(** [s.replace(/\s+/g, '-')]: every maximal run of white space becomes one
    dash.  [in_run] says that the previous code unit was white space. *)
Fixpoint replace_spaces (in_run : bool) (s : string) : string :=
  match s with
  | EmptyString => EmptyString
  | String c r =>
      if is_space c
      then if in_run then replace_spaces true r
           else String "-" (replace_spaces true r)
      else String c (replace_spaces false r)
  end.

(** [Array.prototype.sort] with the default comparison (code units, stable):
    insertion from the right keeps equal elements in order. *)
Fixpoint insert (x : string) (l : list string) : list string :=
  match l with
  | [] => [x]
  | y :: r => if String.leb x y then x :: l else y :: insert x r
  end.

Definition sort (l : list string) : list string := fold_right insert [] l.

(** [a.join(sep)] *)
Definition join (sep : string) (l : list string) : string := String.concat sep l.

(** [s.slice(-n)] *)
Definition slice_last (n : nat) (s : string) : string :=
  substring (String.length s - n) n s.

(** [n.toString()] for a non-negative integer. *)
Definition toString (n : N) : string := NilZero.string_of_uint (N.to_uint n).

Definition normalize (t : string) : string := replace_spaces false (toLowerCase t).

End Str.

(** [generateMatchId] of the scraper that reads The Odds API
    (scrapers/oddschecker.js). *)
Module OddsApi.

Definition generateMatchId (team1 team2 : string) : string :=
  let normalized := Str.join "_" (Str.sort (map Str.normalize [team1; team2])) in
  ("match_" ++ normalized)%string.

End OddsApi.

(** [generateMatchId] of the Oddschecker scraper with the mock data (the
    second scraper source, kept after scrapers/on-demand.js); [now] is the
    reading of [Date.now()]. *)
Module Oddschecker.

Definition generateMatchId (now : N) (team1 team2 : string) : string :=
  let normalized := Str.join "_" (Str.sort (map Str.normalize [team1; team2])) in
  ("match_" ++ normalized ++ "_" ++ Str.slice_last 6 (Str.toString now))%string.

End Oddschecker.

(** ** The on-demand refresh cache (scrapers/on-demand) *)

(** [getOrScrapeData] is an async function: a call runs until its next
    [await], where other calls may run.  Each call is a thread with a program
    point; an event resumes one thread and runs it to its next [await] or to
    its end.  The collaborators ([scrapeAllSports], [storeOdds],
    [detectArbitrageOpportunities], the timer) are the environment: the event
    carries what they settle with.  Times are milliseconds as [Date.now()]
    reads them. *)
Module OnDemand.

Local Open Scope Z_scope.

(** [lastScrapeTime] and [isScraping] *)
Record cache : Type := mkCache {
  lastScrapeTime : option Z;
  isScraping : bool
}.

Definition CACHE_DURATION : Z := 30 * 60 * 1000.

(** [!lastScrapeTime]: [null] and [0] are falsy. *)
Definition unset (c : cache) : bool :=
  match lastScrapeTime c with
  | None => true
  | Some t => t =? 0
  end.

Definition needsFreshData (now : Z) (c : cache) : bool :=
  match lastScrapeTime c with
  | None => true
  | Some t =>
      if t =? 0 then true
      else
        let timeSinceLastScrape := now - t in
        CACHE_DURATION <? timeSinceLastScrape
  end.

Definition error : Type := string.

(** What the promise of a call resolves to. *)
Inductive result : Type :=
| Cached (cacheAge : Z)        (* { scraped: false, cacheAge } *)
| Waited                       (* { scraped: false, waited: true } *)
| NoOddsFound                  (* { scraped: true, error: 'No odds found' } *)
| Scraped (oddsCount : nat).   (* { scraped: true, oddsCount } *)

(** Where a call is suspended. *)
Inductive pc : Type :=
| Idle                         (* not called yet *)
| AwaitScrape                  (* await scrapeAllSports() *)
| AwaitStore (oddsCount : nat) (* await storeOdds(allOdds) *)
| AwaitDetect (oddsCount : nat)(* await detectArbitrageOpportunities() *)
| AwaitTimer (waited : Z)      (* in waitForScrape, await the 1000 ms timer *)
| Resolved (r : result)
| Rejected (e : error).

(** Collaborator invocations, recorded per call. *)
Inductive action : Type := Fetch | Store | Detect.

Record thread : Type := mkThread {
  at_pc : pc;
  did : list action
}.

Inductive settled (A : Type) : Type :=
| Fulfilled (a : A)
| Failed (e : error).
Arguments Fulfilled {A} a.
Arguments Failed {A} e.

Definition set_scraping (b : bool) (c : cache) : cache :=
  mkCache (lastScrapeTime c) b.

(** [Math.round((Date.now() - lastScrapeTime) / 1000 / 60)] *)
Definition cacheAge (now : Z) (c : cache) : Z :=
  let t := match lastScrapeTime c with Some t => t | None => 0 end in
  (now - t + 30000) / 60000.

Definition maxWait : Z := 60000.

(** [waitForScrape] at its loop test, with [waited] so far: it suspends on
    the timer or returns, and then [getOrScrapeData] returns
    [{ scraped: false, waited: true }]. *)
Definition waitForScrape (c : cache) (waited : Z) : pc :=
  if isScraping c && (waited <? maxWait) then AwaitTimer waited
  else Resolved Waited.

(** From the call to the first [await] or to the return (the freshness
    test, the in-progress test, and the start of the [try] block up to
    [await scrapeAllSports()]). [now] is read by [needsFreshData], [now'] by
    the cache-age computation. *)
Definition enter (now now' : Z) (c : cache) : cache * thread :=
  if negb (needsFreshData now c) then
    (c, mkThread (Resolved (Cached (cacheAge now' c))) [])
  else if isScraping c then
    (c, mkThread (waitForScrape c 0) [])
  else
    (set_scraping true c, mkThread AwaitScrape [Fetch]).

(** [scrapeAllSports()] has settled: the [catch] block on a failure, the
    empty-result return, or on to [await storeOdds(allOdds)]. *)
Definition after_scrape (r : settled (list odd)) (c : cache) (t : thread)
  : cache * thread :=
  match r with
  | Failed e => (set_scraping false c, mkThread (Rejected e) (did t))
  | Fulfilled allOdds =>
      if (List.length allOdds =? 0)%nat
      then (set_scraping false c, mkThread (Resolved NoOddsFound) (did t))
      else (c, mkThread (AwaitStore (List.length allOdds)) (did t ++ [Store]))
  end.

(** [storeOdds(allOdds)] has settled: the [catch] block on a failure, or on
    to [await detectArbitrageOpportunities()]. *)
Definition after_store (n : nat) (r : settled unit) (c : cache) (t : thread)
  : cache * thread :=
  match r with
  | Failed e => (set_scraping false c, mkThread (Rejected e) (did t))
  | Fulfilled _ => (c, mkThread (AwaitDetect n) (did t ++ [Detect]))
  end.

(** [detectArbitrageOpportunities()] has returned (it catches its own
    errors): [lastScrapeTime = Date.now()], the flag is cleared and the call
    returns [{ scraped: true, oddsCount }]. *)
Definition after_detect (n : nat) (now : Z) (c : cache) (t : thread)
  : cache * thread :=
  (mkCache (Some now) false, mkThread (Resolved (Scraped n)) (did t)).

(** The timer of [waitForScrape] has fired: [waited += 1000] and the loop
    test again. *)
Definition after_timer (waited : Z) (c : cache) (t : thread) : cache * thread :=
  (c, mkThread (waitForScrape c (waited + 1000)) (did t)).

Inductive event : Type :=
| Call (i : nat) (now now' : Z)
| ScrapeSettles (i : nat) (r : settled (list odd))
| StoreSettles (i : nat) (r : settled unit)
| DetectReturns (i : nat) (now : Z)
| TimerFires (i : nat).

Record state : Type := mkState {
  mem : cache;
  threads : list thread
}.

Fixpoint set_nth {A : Type} (i : nat) (x : A) (l : list A) : list A :=
  match l, i with
  | [], _ => []
  | _ :: r, O => x :: r
  | y :: r, S j => y :: set_nth j x r
  end.

Definition who (e : event) : nat :=
  match e with
  | Call i _ _ | ScrapeSettles i _ | StoreSettles i _
  | DetectReturns i _ | TimerFires i => i
  end.

(** [getOrScrapeData] as a transition function: what the call [t] does when
    the event [e] resumes it, up to its next [await] or its end; [None] when
    the event is not one the call is waiting for. *)
Definition getOrScrapeData (e : event) (c : cache) (t : thread) : option (cache * thread) :=
  match e, at_pc t with
  | Call _ now now', Idle => Some (enter now now' c)
  | ScrapeSettles _ r, AwaitScrape => Some (after_scrape r c t)
  | StoreSettles _ r, AwaitStore n => Some (after_store n r c t)
  | DetectReturns _ now, AwaitDetect n => Some (after_detect n now c t)
  | TimerFires _, AwaitTimer w => Some (after_timer w c t)
  | _, _ => None
  end.

Definition step (s : state) (e : event) : option state :=
  match nth_error (threads s) (who e) with
  | Some t =>
      match getOrScrapeData e (mem s) t with
      | Some (c', t') => Some (mkState c' (set_nth (who e) t' (threads s)))
      | None => None
      end
  | None => None
  end.

Fixpoint run (s : state) (tr : list event) : option state :=
  match tr with
  | [] => Some s
  | e :: tr' =>
      match step s e with
      | Some s' => run s' tr'
      | None => None
      end
  end.

(** [n] calls not made yet. *)
Definition init (n : nat) (c : cache) : state :=
  mkState c (repeat (mkThread Idle []) n).

(** A call between setting and clearing [isScraping]. *)
Definition refreshing (p : pc) : bool :=
  match p with
  | AwaitScrape | AwaitStore _ | AwaitDetect _ => true
  | _ => false
  end.



Definition count_pc (f : pc -> bool) (s : state) : nat :=
  List.length (filter (fun t => f (at_pc t)) (threads s)).


Definition eq_action (a b : action) : bool :=
  match a, b with
  | Fetch, Fetch | Store, Store | Detect, Detect => true
  | _, _ => false
  end.

Definition count_action (a : action) (l : list action) : nat :=
  List.length (filter (eq_action a) l).

(** How often [scrapeAllSports] was invoked so far, over all calls. *)
Definition fetches (s : state) : nat :=
  fold_right (fun t n => (count_action Fetch (did t) + n)%nat) O (threads s).





(** The collaborator invocations a call has made, by where it is: nothing,
    or one fetch followed by the store and then the detection as far as the
    refresh got. *)
Definition pipeline (t : thread) : Prop :=
  match at_pc t with
  | Idle | AwaitTimer _ | Resolved (Cached _) | Resolved Waited => did t = []
  | AwaitScrape | Resolved NoOddsFound => did t = [Fetch]
  | AwaitStore _ => did t = [Fetch; Store]
  | AwaitDetect _ | Resolved (Scraped _) => did t = [Fetch; Store; Detect]
  | Rejected _ => did t = [Fetch] \/ did t = [Fetch; Store]
  end.


Definition flag (b : bool) : nat := if b then 1%nat else 0%nat.

End OnDemand.

(** ** Sample rows *)

Module Sample.

Definition row (b : string) (o1 o2 : num) (d : option num) : odd :=
  mkOdd "Home" "Away" b o1 o2 d.

(** Two bookmakers, 2.50 on the home side at one and 2.00 on the away side
    at the other. *)
Definition rows_arb : list odd :=
  [ row "B1" (Fin 2.5) (Fin 1.2) None; row "B2" (Fin 1.1) (Fin 2) None ].


(** No bookmaker prices the away side. *)
Definition rows_unpriced : list odd :=
  [ row "B1" (Fin 2.5) (Fin 0) None; row "B2" (Fin 3) NaN None ].

(** A draw price of 0.50 at one bookmaker. *)
Definition rows_low_draw : list odd :=
  [ row "B1" (Fin 3) (Fin 3) (Some (Fin 0.5)); row "B2" (Fin 3) (Fin 3) None ].



(** Three outcomes, all priced, with an arbitrage. *)
Definition rows_three : list odd :=
  [ row "B1" (Fin 3.5) (Fin 2) (Some (Fin 3));
    row "B2" (Fin 2) (Fin 3.5) (Some (Fin 4)) ].

(** The cache one refresh after time 1000, asked again exactly 30 minutes
    later. *)
Definition cache_at_1000 : OnDemand.cache := OnDemand.mkCache (Some 1000%Z) false.

Definition never_scraped : OnDemand.cache := OnDemand.mkCache None false.







End Sample.

(** ** More of the calculator: the legs and the stake amounts *)







Module Demo.


End Demo.

(** ** More of the on-demand cache: what is counted along a run *)

Module Along.
Import OnDemand.

(** How often the timer of call [i] fired in a trace. *)
Definition timer_fires (i : nat) (tr : list event) : nat :=
  List.length (filter (fun e => match e with
                                | TimerFires j => Nat.eqb i j
                                | _ => false
                                end) tr).

(** What [k] timer firings mean for a call at [p]: none before the call,
    [waited = 1000 * k] below [maxWait] while it polls. *)
Definition waited_so_far (p : pc) (k : nat) : Prop :=
  match p with
  | Idle => k = 0%nat
  | AwaitTimer w => w = (1000 * Z.of_nat k)%Z /\ (k < 60)%nat
  | _ => (k <= 60)%nat
  end.

Definition polled (i : nat) (s : state) (k : nat) : Prop :=
  match nth_error (threads s) i with
  | Some t => waited_so_far (at_pc t) k
  | None => k = 0%nat
  end.

(** The call returned [{ scraped: true, oddsCount }]. *)
Definition scraped (t : thread) : Prop := exists n, at_pc t = Resolved (Scraped n).

(** Every call of the trace is made within the cache duration of [T]. *)
Definition calls_within (T : Z) (tr : list event) : bool :=
  forallb (fun e => match e with
                    | Call _ now _ => (now - T <=? CACHE_DURATION)%Z
                    | _ => true
                    end) tr.

(** The ways a refresh ends without success. *)
Definition soft_failure (e : event) : bool :=
  match e with
  | ScrapeSettles _ (Failed _) => true
  | ScrapeSettles _ (Fulfilled allOdds) => (List.length allOdds =? 0)%nat
  | StoreSettles _ (Failed _) => true
  | _ => false
  end.

End Along.

Module DemoRuns.
Import OnDemand.

(** One call fetches, a second one polls the timer twice before the fetch
    fails. *)
Definition waiting_trace : list event :=
  [ Call 0 5000 5000; Call 1 5001 5001; TimerFires 1; TimerFires 1;
    ScrapeSettles 0 (Failed "timeout"%string); TimerFires 1 ].

Definition fetch_fails : list event :=
  [ Call 0 5000 5000 ].

Definition refreshed : list event :=
  [ Call 0 5000 5000; ScrapeSettles 0 (Fulfilled Sample.rows_arb);
    StoreSettles 0 (Fulfilled tt) ].

End DemoRuns.

(** ** More on the strings of a match identifier *)

Module Chars.

Fixpoint all_chars (f : ascii -> bool) (s : string) : bool :=
  match s with
  | EmptyString => true
  | String c r => f c && all_chars f r
  end.

(** Neither white space nor a letter that [toLowerCase] changes. *)
Definition plain (c : ascii) : bool :=
  negb (Str.is_space c) && Ascii.eqb (Str.lower_char c) c.

End Chars.

(** ** The mock data of the Oddschecker scraper ([generateMockMatches],
       [generateMockOdds]) *)

(** The clock and [Math.random()] are the environment: [now] is the time of
    [new Date()], [clock i] the reading of [Date.now()] in the [i]-th call of
    [generateMatchId], [rnd k] the [k]-th random number drawn. *)
Module MockData.

Record sportConfig : Type := mkSport {
  name : string;
  url : string;
  has_draw : bool
}.

Definition SPORTS_CONFIG : list sportConfig :=
  [ mkSport "soccer" "https://www.oddschecker.com/football" true;
    mkSport "basketball" "https://www.oddschecker.com/basketball/nba" false;
    mkSport "tennis" "https://www.oddschecker.com/tennis" false;
    mkSport "nfl" "https://www.oddschecker.com/american-football/nfl" false;
    mkSport "mlb" "https://www.oddschecker.com/baseball/usa/mlb" false ].

(** [teamsByPort[sportConfig.name] || []], for the names of [SPORTS_CONFIG]
    and for names that are no property of the table. *)
Definition teamsByPort (sport : string) : list (string * string) :=
  if (sport =? "soccer")%string then
    [ ("Manchester United", "Liverpool"); ("Barcelona", "Real Madrid");
      ("Bayern Munich", "Dortmund"); ("PSG", "Marseille"); ("Arsenal", "Chelsea") ]%string
  else if (sport =? "basketball")%string then
    [ ("Lakers", "Celtics"); ("Warriors", "Nets"); ("Heat", "Bucks");
      ("Nuggets", "Suns") ]%string
  else if (sport =? "tennis")%string then
    [ ("Djokovic", "Nadal"); ("Alcaraz", "Medvedev"); ("Swiatek", "Sabalenka") ]%string
  else if (sport =? "nfl")%string then
    [ ("Chiefs", "Bills"); ("49ers", "Eagles"); ("Cowboys", "Packers") ]%string
  else if (sport =? "mlb")%string then
    [ ("Yankees", "Red Sox"); ("Dodgers", "Giants"); ("Astros", "Rangers") ]%string
  else [].

Record mockMatch : Type := mkMatch {
  id : string;
  match_name : string;
  m_team1 : string;
  m_team2 : string;
  date : Z
}.

(** [teams.map((matchup, i) => ...)] from index [i] on. *)
Fixpoint mapMatches (teams : list (string * string)) (i : nat) (now : Z)
    (clock : nat -> N) : list mockMatch :=
  match teams with
  | [] => []
  | (a, b) :: r =>
      mkMatch (Oddschecker.generateMatchId (clock i) a b)
              (a ++ " vs " ++ b)%string a b
              (now + (Z.of_nat i + 1) * 24 * 60 * 60 * 1000)%Z
      :: mapMatches r (S i) now clock
  end.

Definition generateMockMatches (cfg : sportConfig) (now : Z) (clock : nat -> N)
  : list mockMatch :=
  mapMatches (teamsByPort (name cfg)) 0 now clock.

Definition bookmakers : list string :=
  [ "Bet365"; "DraftKings"; "FanDuel"; "BetMGM"; "Caesars";
    "PointsBet"; "BetRivers"; "Unibet"; "William Hill"; "888sport" ]%string.

(** One pushed object: the fields the calculator reads are in [quote]. *)
Record scraped : Type := mkScraped {
  sport : string;
  match_id : string;
  scraped_name : string;
  quote : odd;
  match_date : Z
}.

(** The body of the inner [forEach]: one row, drawing three random numbers,
    and a fourth one for the draw price. [k] counts the numbers drawn. *)
Definition mockRow (cfg : sportConfig) (m : mockMatch) (bookmaker : string)
    (rnd : nat -> num) (k : nat) : scraped * nat :=
  let baseOdds1 := add (Fin 1.5) (mul (rnd k) (Fin 3)) in
  let baseOdds2 := add (Fin 1.5) (mul (rnd (S k)) (Fin 3)) in
  let variation := mul (sub (rnd (S (S k))) (Fin 0.5)) (Fin 0.3) in
  let odds1 := toFixed2 (add baseOdds1 variation) in
  let odds2 := toFixed2 (sub baseOdds2 variation) in
  let drawOdds :=
    if has_draw cfg
    then Some (toFixed2 (add (Fin 3) (mul (rnd (S (S (S k)))) (Fin 2))))
    else None in
  (mkScraped (name cfg) (id m) (match_name m)
     (mkOdd (m_team1 m) (m_team2 m) bookmaker odds1 odds2 drawOdds) (date m),
   if has_draw cfg then (4 + k)%nat else (3 + k)%nat).

Fixpoint forBookmakers (cfg : sportConfig) (m : mockMatch) (bks : list string)
    (rnd : nat -> num) (k : nat) : list scraped * nat :=
  match bks with
  | [] => ([], k)
  | b :: r =>
      let '(row, k1) := mockRow cfg m b rnd k in
      let '(rows, k2) := forBookmakers cfg m r rnd k1 in
      (row :: rows, k2)
  end.

Fixpoint forMatches (cfg : sportConfig) (ms : list mockMatch)
    (rnd : nat -> num) (k : nat) : list scraped :=
  match ms with
  | [] => []
  | m :: r =>
      let '(rows, k1) := forBookmakers cfg m bookmakers rnd k in
      rows ++ forMatches cfg r rnd k1
  end.

Definition generateMockOdds (cfg : sportConfig) (now : Z) (clock : nat -> N)
    (rnd : nat -> num) : list scraped :=
  forMatches cfg (generateMockMatches cfg now clock) rnd 0.

(** [Math.random()] returns a number in [0, 1). *)
Definition unit_interval (rnd : nat -> num) : Prop :=
  forall k, exists r, rnd k = Fin r /\ 0 <= r /\ r < 1.

(** A finite price between [lo] and [hi]. *)
Definition between (lo hi : Q) (p : num) : Prop :=
  exists x, p = Fin x /\ lo <= x /\ x <= hi.

Definition mock_prices (cfg : sportConfig) (o : odd) : Prop :=
  between 1.35 4.65 (odds1 o) /\ between 1.35 4.65 (odds2 o)
  /\ (if has_draw cfg
      then exists d, draw_odds o = Some d /\ between 3 5 d
      else draw_odds o = None).

(** A random source for the examples. *)
Definition halves : nat -> num := fun _ => Fin 0.5.

End MockData.

(** ** Storing and presenting opportunities ([storeArbitrage] of
       database/queries, the two [GET] handlers of routes/opportunities,
       [detectArbitrageOpportunities] of the scrapers) *)

(** The store is taken to answer every query and to give back the values it
    was given; a numeric column read back and passed to [parseFloat] is the
    number stored. *)
Module Store.


(** The columns of [arbitrage_opportunities] that the insert fills. *)
Record row : Type := mkRow {
  row_match_id : string;
  row_sport : string;
  row_match_name : string;
  row_team1 : string;
  row_team2 : string;
  row_profit : num;
  bet1_bookmaker : option string;
  bet1_odds : num;
  bet1_stake_pct : num;
  bet2_bookmaker : option string;
  bet2_odds : num;
  bet2_stake_pct : num;
  bet3_bookmaker : option string;
  bet3_odds : option num;
  bet3_stake_pct : option num
}.














End Store.

Module DemoRows.


End DemoRows.

(** ** API keys ([validateApiKey] and [incrementApiKeyUsage] of
       database/queries, [authenticateApiKey] of middleware/auth) *)

(** The table [api_keys] is a map from the key (its primary key) to the
    other columns. A request carries the [x-api-key] header, the clock, and
    whether each of the two queries fails for it. Requests are handled one
    after the other. *)
Module Auth.

Local Open Scope Z_scope.

Record apiKey : Type := mkApiKey {
  user_email : option string;
  tier : string;
  requests_used : Z;
  requests_limit : Z;
  created_at : Z;
  last_used_at : option Z
}.

Definition table : Type := string -> option apiKey.

(** What [validateApiKey] resolves to: [null], [{ valid: false, message }]
    or [{ valid: true, ...apiKey }]. *)
Inductive validation : Type :=
| NoSuchKey
| RateLimited
| Valid (k : apiKey).

Definition validateApiKey (t : table) (key : string) : validation :=
  match t key with
  | None => NoSuchKey
  | Some k =>
      if requests_limit k <=? requests_used k then RateLimited
      else Valid k
  end.

Definition incrementApiKeyUsage (t : table) (key : string) (now : Z) : table :=
  fun k' =>
    if (k' =? key)%string then
      match t key with
      | Some k => Some (mkApiKey (user_email k) (tier k) (requests_used k + 1)
                          (requests_limit k) (created_at k) (Some now))
      | None => None
      end
    else t k'.

Record request : Type := mkRequest {
  x_api_key : option string;
  now : Z;
  validate_fails : bool;
  increment_fails : bool
}.

Inductive response : Type :=
| MissingKey          (* 401, 'Missing API key' *)
| InvalidKey          (* 401, 'Invalid API key' *)
| LimitExceeded       (* 429, 'Rate limit exceeded' *)
| AuthFailed          (* 500, 'Authentication failed' *)
| Next (k : apiKey).  (* next(), with req.apiKey set *)

Definition authenticateApiKey (t : table) (req : request) : response * table :=
  match x_api_key req with
  | None => (MissingKey, t)
  | Some key =>
      if (key =? "")%string then (MissingKey, t)
      else if validate_fails req then (AuthFailed, t)
      else
        match validateApiKey t key with
        | NoSuchKey => (InvalidKey, t)
        | RateLimited => (LimitExceeded, t)
        | Valid k =>
            if increment_fails req then (AuthFailed, t)
            else (Next k, incrementApiKeyUsage t key (now req))
        end
  end.

Fixpoint serve (t : table) (reqs : list request) : list response * table :=
  match reqs with
  | [] => ([], t)
  | req :: rest =>
      let '(resp, t1) := authenticateApiKey t req in
      let '(resps, t2) := serve t1 rest in
      (resp :: resps, t2)
  end.

Definition let_through (key : string) (req : request) (resp : response) : bool :=
  match x_api_key req, resp with
  | Some k, Next _ => (k =? key)%string
  | _, _ => false
  end.

(** How many of the requests with the key [key] were let through. *)
Fixpoint passed (key : string) (reqs : list request) (resps : list response) : nat :=
  match reqs, resps with
  | req :: reqs', resp :: resps' =>
      ((if let_through key req resp then 1 else 0) + passed key reqs' resps')%nat
  | _, _ => 0%nat
  end.

(** A table with the demo key of the schema, and three requests with it. *)
Definition demo_table : table :=
  fun k => if (k =? "demo_key_12345")%string
           then Some (mkApiKey (Some "demo@arbitrageedge.com"%string) "pro" 9999 10000 0 None)
           else None.

Definition demo_requests : list request :=
  [ mkRequest (Some "demo_key_12345"%string) 1 false false;
    mkRequest (Some "demo_key_12345"%string) 2 false false;
    mkRequest (Some "demo_key_12345"%string) 3 false false ].

End Auth.

(** ** The odds table ([storeOdds] of database/queries) *)

(** The table [odds] is a map from its unique key [(match_id, bookmaker)]
    to the other columns. [now] is the time of the transaction, [rejects]
    tells the records whose insert the store refuses (the transaction is then
    rolled back and the error thrown). *)
Module OddsTable.

Record entry : Type := mkEntry {
  stored : MockData.scraped;
  scraped_at : Z
}.

Definition table : Type := string -> string -> option entry.

Definition key (r : MockData.scraped) : string * string :=
  (MockData.match_id r, bookmaker (MockData.quote r)).









End OddsTable.

(** * Properties *)

(** ** Facts about JavaScript numbers *)

Lemma Qle_bool_false (x y : Q) : Qle_bool x y = false <-> y < x.
Proof.
  split; intro H.
  - apply Qnot_le_lt. intro L. apply Qle_bool_iff in L. congruence.
  - destruct (Qle_bool x y) eqn:E; [|reflexivity].
    apply Qle_bool_iff in E. exfalso. apply (Qlt_not_le _ _ H E).
Qed.

Lemma Qeq_bool_false (x y : Q) : Qeq_bool x y = false <-> ~ x == y.
Proof.
  split; intro H.
  - intro E. apply Qeq_bool_iff in E. congruence.
  - destruct (Qeq_bool x y) eqn:E; [|reflexivity].
    apply Qeq_bool_iff in E. contradiction.
Qed.

Lemma gt_Fin (x y : Q) : gt (Fin x) (Fin y) = true <-> y < x.
Proof.
  simpl. rewrite negb_true_iff. rewrite Qle_bool_false. tauto.
Qed.


Lemma gt_trans (a b c : num) : gt a b = true -> gt b c = true -> gt a c = true.
Proof.
  destruct a as [x| | |], b as [y| | |], c as [z| | |];
    simpl; try discriminate; try reflexivity.
  rewrite !negb_true_iff, !Qle_bool_false. intros H1 H2.
  apply Qlt_trans with y; assumption.
Qed.

Lemma positive_Fin (x : Q) : positive (Fin x) = true <-> 0 < x.
Proof. unfold positive. apply gt_Fin. Qed.

Lemma positive_cases (p : num) :
  positive p = true -> p = PInf \/ exists x, p = Fin x /\ 0 < x.
Proof.
  destruct p as [x| | |]; try discriminate.
  - intro H. right. exists x. split; [reflexivity|]. now apply positive_Fin.
  - now left.
Qed.

Lemma positive_truthy (p : num) : positive p = true -> truthy p = true.
Proof.
  intro H. destruct (positive_cases p H) as [->|[x [-> Hx]]]; [reflexivity|].
  simpl. rewrite negb_true_iff. apply Qeq_bool_false. lra.
Qed.




Lemma implied_shape (b : num) : best_shape b -> prob_shape (div (Fin 1) b).
Proof.
  intros [->|H].
  - exact I.
  - destruct (positive_cases b H) as [->|[x [-> Hx]]]; simpl.
    + lra.
    + assert (E : Qeq_bool x 0 = false) by (apply Qeq_bool_false; lra).
      rewrite E. simpl. apply Qlt_le_weak.
      unfold Qdiv. rewrite Qmult_1_l. now apply Qinv_lt_0_compat.
Qed.



(** ** The loop over the rows *)

Lemma loop2_split (odds : list odd) :
  loop2 odds = (bestOf SideA odds, bestOf SideB odds).
Proof.
  unfold loop2, bestOf, pass. generalize best0 at 1 3. generalize best0.
  induction odds as [|o r IH]; intros b2 b1; simpl; [reflexivity|]. apply IH.
Qed.

Lemma loop3_split (odds : list odd) :
  loop3 odds = (bestOf SideA odds, bestOf SideB odds, bestOf SideDraw odds).
Proof.
  unfold loop3, bestOf, pass.
  generalize best0 at 1 4. generalize best0 at 1 3. generalize best0.
  induction odds as [|o r IH]; intros bd b2 b1; simpl; [reflexivity|]. apply IH.
Qed.

(** One step of a pass either keeps the running best or replaces it by the
    row's price, which is then above the old best. *)
Lemma pick_side_cases (s : side) (o : odd) (b : bestOdds) :
  pick_side s o b = b
  \/ exists p, price s o = Some p /\ gt p (best_odds b) = true
               /\ pick_side s o b = mkBest p (Some (bookmaker o)).
Proof.
  destruct s; simpl; unfold pick, pick_draw.
  - destruct (gt (odds1 o) (best_odds b)) eqn:E; [right|left; reflexivity].
    exists (odds1 o). auto.
  - destruct (gt (odds2 o) (best_odds b)) eqn:E; [right|left; reflexivity].
    exists (odds2 o). auto.
  - destruct (draw_odds o) as [d|] eqn:D; [|left; reflexivity].
    destruct (truthy d && gt d (best_odds b)) eqn:E; [right|left; reflexivity].
    apply andb_true_iff in E. exists d. simpl. tauto.
Qed.


(** The invariant of one outcome's pass, from any running best [b0]. *)
Section Pass.
Variable s : side.

Lemma pass_shape (odds : list odd) (b0 : bestOdds) :
  best_shape (best_odds b0) -> best_shape (best_odds (pass s odds b0)).
Proof.
  revert b0. induction odds as [|o r IH]; intros b0 H; simpl; [exact H|].
  apply IH.
  destruct (pick_side_cases s o b0) as [E|[p [_ [G E]]]]; rewrite E; [exact H|].
  simpl. right. destruct H as [H|H].
  - rewrite H in G. exact G.
  - unfold positive in *. now apply gt_trans with (best_odds b0).
Qed.



(** The best is the initial one, or it was taken from a row, with that
    row's bookmaker, and is positive. *)
Lemma pass_attained (odds : list odd) (b0 : bestOdds) :
  best_shape (best_odds b0) ->
  pass s odds b0 = b0
  \/ exists o, In o odds /\ price s o = Some (best_odds (pass s odds b0))
               /\ best_bookmaker (pass s odds b0) = Some (bookmaker o)
               /\ positive (best_odds (pass s odds b0)) = true.
Proof.
  revert b0. induction odds as [|o r IH]; intros b0 Hb; simpl; [now left|].
  assert (Hb' : best_shape (best_odds (pick_side s o b0))).
  { change (pick_side s o b0) with (pass s [o] b0). now apply pass_shape. }
  destruct (IH _ Hb') as [E|[o' [Hin H]]].
  - rewrite E.
    destruct (pick_side_cases s o b0) as [E'|[p [Hp [G E']]]]; [now left|].
    right. exists o. rewrite E'. simpl. repeat split; auto.
    destruct Hb as [H0|H0].
    + rewrite H0 in G. exact G.
    + unfold positive in *. now apply gt_trans with (best_odds b0).
  - right. exists o'. split; [now right|exact H].
Qed.
End Pass.

Lemma best0_shape : best_shape (best_odds best0).
Proof. now left. Qed.

Lemma bestPrice_shape (s : side) (odds : list odd) : best_shape (bestPrice s odds).
Proof. apply pass_shape, best0_shape. Qed.

Lemma impliedProbability_shape (s : side) (odds : list odd) :
  prob_shape (impliedProbability s odds).
Proof. apply implied_shape, bestPrice_shape. Qed.




(** No row offers the outcome: the best stays the initial one. *)
Lemma bestOf_none (s : side) (odds : list odd) :
  (forall o, In o odds -> offers s o = false) -> bestOf s odds = best0.
Proof.
  intro H. destruct (pass_attained s odds best0 best0_shape) as [E|[o [Hin [Hp [_ P]]]]].
  - exact E.
  - specialize (H o Hin). unfold offers in H. rewrite Hp in H.
    congruence.
Qed.

Lemma add_PInf_l (v : num) : prob_shape v -> add PInf v = PInf.
Proof. destruct v; simpl; tauto. Qed.

Lemma add_PInf_r (v : num) : prob_shape v -> add v PInf = PInf.
Proof. destruct v; simpl; tauto. Qed.

(** The two functions in terms of the per-outcome quantities. *)
Lemma calculate2Way_unfold (odds : list odd) :
  calculate2WayArbitrage odds =
  let total := add (impliedProbability SideA odds) (impliedProbability SideB odds) in
  if ge total (Fin 1) then Returns None
  else
    match first_team team1 odds, first_team team2 odds with
    | Returns t1, Returns t2 =>
        Returns (Some (mkArb true
          (toFixed2 (mul (sub (div (Fin 1) total) (Fin 1)) (Fin 100)))
          [ mkBet t1 (best_bookmaker (bestOf SideA odds)) (bestPrice SideA odds)
              (toFixed2 (mul (div (impliedProbability SideA odds) total) (Fin 100)));
            mkBet t2 (best_bookmaker (bestOf SideB odds)) (bestPrice SideB odds)
              (toFixed2 (mul (div (impliedProbability SideB odds) total) (Fin 100))) ]))
    | _, _ => Throws
    end.
Proof. unfold calculate2WayArbitrage. rewrite loop2_split. reflexivity. Qed.

Lemma calculate3Way_unfold (odds : list odd) :
  calculate3WayArbitrage odds =
  if is_zero (bestPrice SideA odds) || is_zero (bestPrice SideB odds)
     || is_zero (bestPrice SideDraw odds)
  then Returns None
  else
    let total := add (add (impliedProbability SideA odds) (impliedProbability SideB odds))
                     (impliedProbability SideDraw odds) in
    if ge total (Fin 1) then Returns None
    else
      match first_team team1 odds, first_team team2 odds with
      | Returns t1, Returns t2 =>
          Returns (Some (mkArb true
            (toFixed2 (mul (sub (div (Fin 1) total) (Fin 1)) (Fin 100)))
            [ mkBet t1 (best_bookmaker (bestOf SideA odds)) (bestPrice SideA odds)
                (toFixed2 (mul (div (impliedProbability SideA odds) total) (Fin 100)));
              mkBet "Draw" (best_bookmaker (bestOf SideDraw odds)) (bestPrice SideDraw odds)
                (toFixed2 (mul (div (impliedProbability SideDraw odds) total) (Fin 100)));
              mkBet t2 (best_bookmaker (bestOf SideB odds)) (bestPrice SideB odds)
                (toFixed2 (mul (div (impliedProbability SideB odds) total) (Fin 100))) ]))
      | _, _ => Throws
      end.
Proof. unfold calculate3WayArbitrage. rewrite loop3_split. reflexivity. Qed.

Lemma hasDrawOdds_iff (odds : list odd) :
  hasDrawOdds odds = true <-> exists o, In o odds /\ offers SideDraw o = true.
Proof.
  unfold hasDrawOdds. rewrite existsb_exists.
  split; intros [o [Hin H]]; exists o; split; auto; unfold offers in *; simpl in *;
    destruct (draw_odds o) as [d|]; try discriminate.
  - apply andb_true_iff in H. tauto.
  - apply andb_true_iff. split; [now apply positive_truthy|exact H].
Qed.

(** ** The calculator: which prices count, which branch runs *)

(** C10: in a two-outcome evaluation where no row reports a positive price
    for one of the two sides, that side's best price stays 0, its implied
    probability is +Infinity, the total is at least 1 and the calculator
    returns null: it neither throws nor builds an opportunity. *)
Theorem two_way_unpriced_side_is_none (odds : list odd) (s : side) :
  s = SideA \/ s = SideB ->
  (forall o, In o odds -> offers s o = false) ->
  bestPrice s odds = Fin 0
  /\ impliedProbability s odds = PInf
  /\ ge (add (impliedProbability SideA odds) (impliedProbability SideB odds)) (Fin 1) = true
  /\ calculate2WayArbitrage odds = Returns None
  /\ (hasDrawOdds odds = false -> calculateArbitrage odds = Returns None).
Proof.
  intros Hs Hno.
  assert (B : bestPrice s odds = Fin 0).
  { unfold bestPrice. now rewrite (bestOf_none s odds Hno). }
  assert (P : impliedProbability s odds = PInf).
  { unfold impliedProbability. now rewrite B. }
  assert (T : add (impliedProbability SideA odds) (impliedProbability SideB odds) = PInf).
  { destruct Hs as [-> | ->]; rewrite P.
    - apply add_PInf_l, impliedProbability_shape.
    - apply add_PInf_r, impliedProbability_shape. }
  assert (C : calculate2WayArbitrage odds = Returns None).
  { rewrite calculate2Way_unfold. cbv zeta. now rewrite T. }
  repeat split; auto.
  - now rewrite T.
  - intro D. unfold calculateArbitrage. rewrite D, C.
    now destruct (List.length odds <? 2)%nat.
Qed.

Lemma two_way_unpriced_side_is_none_witness :
  calculate2WayArbitrage Sample.rows_unpriced = Returns None.
Proof.
  assert (Hno : forall o, In o Sample.rows_unpriced -> offers SideB o = false)
    by (intros o [<-|[<-|[]]]; reflexivity).
  destruct (two_way_unpriced_side_is_none Sample.rows_unpriced SideB
              (or_intror eq_refl) Hno) as (_ & _ & _ & C & _).
  exact C.
Defined.

(** C6, as the code has it: the event is evaluated as three-outcome exactly
    when some row carries a draw price above 0 (not above 1.0), as
    two-outcome otherwise, and the three-outcome evaluation returns null as
    soon as one of the three outcomes has no positive price. *)
Theorem outcome_count_decision (odds : list odd) :
  (2 <= List.length odds)%nat ->
  (hasDrawOdds odds = true <-> exists o, In o odds /\ offers SideDraw o = true)
  /\ calculateArbitrage odds =
       (if hasDrawOdds odds then calculate3WayArbitrage odds
        else calculate2WayArbitrage odds)
  /\ (forall s, (forall o, In o odds -> offers s o = false) ->
                calculate3WayArbitrage odds = Returns None).
Proof.
  intro Hlen. split; [apply hasDrawOdds_iff|]. split.
  - unfold calculateArbitrage.
    destruct (List.length odds <? 2)%nat eqn:E; [|reflexivity].
    apply Nat.ltb_lt in E. lia.
  - intros s Hno. rewrite calculate3Way_unfold.
    assert (B : bestPrice s odds = Fin 0).
    { unfold bestPrice. now rewrite (bestOf_none s odds Hno). }
    destruct s; rewrite B; simpl; rewrite ?orb_true_r; reflexivity.
Qed.

Lemma outcome_count_decision_witness :
  calculateArbitrage Sample.rows_three =
  (if hasDrawOdds Sample.rows_three then calculate3WayArbitrage Sample.rows_three
   else calculate2WayArbitrage Sample.rows_three).
Proof.
  assert (Hlen : (2 <= List.length Sample.rows_three)%nat) by (simpl; lia).
  destruct (outcome_count_decision Sample.rows_three Hlen) as (_ & C & _).
  exact C.
Defined.

(** C6 as stated fails: a draw price of 0.50 is not above 1.0, yet the event
    is evaluated as three-outcome (and returns null where the two-outcome
    evaluation finds an opportunity). *)
Lemma outcome_count_not_above_one :
  (forall o d, In o Sample.rows_low_draw -> draw_odds o = Some d ->
               gt d (Fin 1) = false)
  /\ hasDrawOdds Sample.rows_low_draw = true
  /\ calculateArbitrage Sample.rows_low_draw = calculate3WayArbitrage Sample.rows_low_draw
  /\ calculateArbitrage Sample.rows_low_draw = Returns None
  /\ calculate2WayArbitrage Sample.rows_low_draw <> Returns None.
Proof.
  split; [|repeat split; try reflexivity; discriminate].
  intros o d [<-|[<-|[]]]; simpl; intro H; [|discriminate].
  injection H as <-. reflexivity.
Qed.



(** ** Rounding to two decimals *)

Lemma cents_bounds (q : Q) :
  0 <= q ->
  inject_Z (cents (Qabs q)) <= q * 100 + (1 # 2)
  /\ q * 100 + (1 # 2) < inject_Z (cents (Qabs q)) + 1.
Proof.
  intro Hq. unfold cents.
  assert (E : Qabs q * 100 + (1 # 2) == q * 100 + (1 # 2))
    by (rewrite (Qabs_pos q Hq); reflexivity).
  split.
  - rewrite <- E. apply Qfloor_le.
  - rewrite <- E at 1.
    rewrite <- (inject_Z_plus _ 1). apply Qlt_floor.
Qed.

Lemma toFixed2_small (q : Q) :
  0 <= q -> q < inject_Z (10 ^ 21) ->
  toFixed2 (Fin q) = Fin (cents (Qabs q) # 100).
Proof.
  intros H0 H1. unfold toFixed2.
  assert (A : Qle_bool (inject_Z (10 ^ 21)) (Qabs q) = false).
  { apply Qle_bool_false. rewrite (Qabs_pos q H0). exact H1. }
  assert (B : Qle_bool 0 q = true) by now apply Qle_bool_iff.
  cbv zeta. rewrite A, B. reflexivity.
Qed.




(** ** The contract of the calculator *)








(** ** Profit and stakes of a returned opportunity *)






Lemma hundredths (z : Z) : (z # 100) == inject_Z z * (1 # 100).
Proof. rewrite Qmake_Qdiv. unfold Qdiv. reflexivity. Qed.










(** ** Match identifiers *)

Lemma sort_pair (x y : string) : Str.sort [x; y] = Str.sort [y; x].
Proof.
  unfold Str.sort. simpl.
  destruct (String.leb x y) eqn:A, (String.leb y x) eqn:B; try reflexivity.
  - now rewrite (String.leb_antisym x y A B).
  - destruct (String.leb_total x y); congruence.
Qed.

(** The identifier of the Odds API scraper depends on the two names only
    through the unordered pair of their normalised forms. *)
Lemma OddsApi_generateMatchId_unordered (a b : string) :
  OddsApi.generateMatchId a b = OddsApi.generateMatchId b a.
Proof.
  unfold OddsApi.generateMatchId. cbn [map]. now rewrite sort_pair.
Qed.

Lemma OddsApi_generateMatchId_normalized (a b a' b' : string) :
  Str.normalize a = Str.normalize a' -> Str.normalize b = Str.normalize b' ->
  OddsApi.generateMatchId a b = OddsApi.generateMatchId a' b'
  /\ OddsApi.generateMatchId a b = OddsApi.generateMatchId b' a'.
Proof.
  intros Ea Eb. rewrite <- (OddsApi_generateMatchId_unordered a' b').
  unfold OddsApi.generateMatchId. cbn [map]. rewrite Ea, Eb. auto.
Qed.

(** At one reading of the clock the Oddschecker identifier is unordered as
    well. *)
Lemma Oddschecker_generateMatchId_unordered (now : N) (a b : string) :
  Oddschecker.generateMatchId now a b = Oddschecker.generateMatchId now b a.
Proof.
  unfold Oddschecker.generateMatchId. cbn [map]. now rewrite sort_pair.
Qed.

(** The Oddschecker identifier is the Odds API one with the clock's last six
    digits appended. *)
Lemma Oddschecker_generateMatchId_suffix (now : N) (a b : string) :
  Oddschecker.generateMatchId now a b
  = (OddsApi.generateMatchId a b ++ "_" ++ Str.slice_last 6 (Str.toString now))%string.
Proof. reflexivity. Qed.

(** C9: the identifier is meant to depend on the unordered, normalised
    pair of names only. The Oddschecker scraper appends the last six digits
    of the clock, so the same pair gets different identifiers one
    millisecond apart; the Odds API scraper gives one identifier. *)
Theorem Oddschecker_generateMatchId_depends_on_clock :
  Oddschecker.generateMatchId 1700000123456 "Liverpool" "Arsenal"
    = "match_arsenal_liverpool_123456"%string
  /\ Oddschecker.generateMatchId 1700000123457 "Arsenal" "Liverpool"
    = "match_arsenal_liverpool_123457"%string
  /\ Oddschecker.generateMatchId 1700000123456 "Liverpool" "Arsenal"
     <> Oddschecker.generateMatchId 1700000123457 "Arsenal" "Liverpool"
  /\ OddsApi.generateMatchId "Liverpool" "Arsenal"
     = OddsApi.generateMatchId "Arsenal" "Liverpool".
Proof.
  repeat split; try reflexivity. vm_compute. discriminate.
Qed.

(** ** The on-demand refresh cache *)

Section Refresh.
Import OnDemand.
Local Open Scope Z_scope.

Lemma needsFreshData_iff (now : Z) (c : cache) :
  needsFreshData now c = true
  <-> unset c = true
      \/ exists t, lastScrapeTime c = Some t /\ CACHE_DURATION < now - t.
Proof.
  unfold needsFreshData, unset. destruct (lastScrapeTime c) as [t|].
  - destruct (t =? 0) eqn:E.
    + tauto.
    + rewrite Z.ltb_lt. split.
      * intro H. right. now exists t.
      * intros [H|[t' [[= <-] H]]]; [discriminate|exact H].
  - tauto.
Qed.

(** C7, as the code has it: a call begins a fetch exactly when no refresh is
    in flight and the last-refresh timestamp is unset (null or 0) or now minus
    the timestamp is strictly greater than 30 minutes; otherwise no fetch is
    invoked, and on fresh data the call returns at once with the
    not-scraped result and the cache untouched. *)
Theorem fetch_begins_iff_stale (now now' : Z) (c : cache) :
  (enter now now' c = (set_scraping true c, mkThread AwaitScrape [Fetch])
   <-> ((unset c = true
         \/ exists t, lastScrapeTime c = Some t /\ 30 * 60 * 1000 < now - t)
        /\ isScraping c = false))
  /\ (did (snd (enter now now' c)) = [Fetch]
      \/ did (snd (enter now now' c)) = [])
  /\ (did (snd (enter now now' c)) = [Fetch]
      <-> enter now now' c = (set_scraping true c, mkThread AwaitScrape [Fetch]))
  /\ (needsFreshData now c = false
      <-> enter now now' c = (c, mkThread (Resolved (Cached (cacheAge now' c))) [])).
Proof.
  change (30 * 60 * 1000) with CACHE_DURATION.
  rewrite <- needsFreshData_iff. unfold enter, waitForScrape.
  destruct (needsFreshData now c), (isScraping c) eqn:S; simpl;
    repeat split; try tauto; try discriminate; try intuition congruence.
Qed.

(** C7 as stated fails at the boundary: exactly 30 minutes after the last
    refresh the data still counts as fresh and no fetch begins. *)
Lemma no_fetch_at_exactly_30_minutes :
  lastScrapeTime Sample.cache_at_1000 = Some 1000
  /\ isScraping Sample.cache_at_1000 = false
  /\ 30 * 60 * 1000 <= (1000 + 1800000) - 1000
  /\ enter (1000 + 1800000) (1000 + 1800000) Sample.cache_at_1000
     = (Sample.cache_at_1000, mkThread (Resolved (Cached 30)) []).
Proof. repeat split. discriminate. Qed.

Lemma nth_error_set_nth {A : Type} (i : nat) (x : A) (l : list A) (y : A) :
  nth_error l i = Some y -> nth_error (set_nth i x l) i = Some x.
Proof.
  revert i. induction l as [|a r IH]; intros [|i]; simpl; try discriminate; auto.
Qed.



End Refresh.

(** ** Single flight *)

Section SingleFlight.
Import OnDemand.
Local Open Scope nat_scope.

Lemma filter_set_nth (g : thread -> bool) (i : nat) (t t' : thread) (l : list thread) :
  nth_error l i = Some t ->
  List.length (filter g (set_nth i t' l)) + flag (g t)
  = List.length (filter g l) + flag (g t').
Proof.
  revert i. induction l as [|a r IH]; intros [|i]; simpl; try discriminate.
  - intros [= ->]. destruct (g t), (g t'); simpl; lia.
  - intro H. specialize (IH i H). destruct (g a); simpl; lia.
Qed.

Lemma count_pc_step (f : pc -> bool) (s : state) (i : nat) (c : cache) (t t' : thread) :
  nth_error (threads s) i = Some t ->
  count_pc f (mkState c (set_nth i t' (threads s))) + flag (f (at_pc t))
  = count_pc f s + flag (f (at_pc t')).
Proof.
  intro H. unfold count_pc. simpl.
  apply (filter_set_nth (fun t => f (at_pc t)) i t t' _ H).
Qed.

Lemma fetches_step (s : state) (i : nat) (c : cache) (t t' : thread) :
  nth_error (threads s) i = Some t ->
  fetches (mkState c (set_nth i t' (threads s))) + count_action Fetch (did t)
  = fetches s + count_action Fetch (did t').
Proof.
  unfold fetches. simpl. generalize (threads s). intro l.
  revert i. induction l as [|a r IH]; intros [|i]; simpl; try discriminate.
  - intros [= ->]. lia.
  - intro H. specialize (IH i H). lia.
Qed.

Lemma Forall_set_nth {A : Type} (P : A -> Prop) (i : nat) (x : A) (l : list A) :
  Forall P l -> P x -> Forall P (set_nth i x l).
Proof.
  intros H Hx. revert i. induction H as [|a r Ha Hr IH]; intros [|i]; simpl; auto.
Qed.

Lemma Forall_nth_error {A : Type} (P : A -> Prop) (i : nat) (x : A) (l : list A) :
  Forall P l -> nth_error l i = Some x -> P x.
Proof.
  intros H Hx. rewrite Forall_forall in H. apply H. now apply nth_error_In with i.
Qed.

(** A step, taken apart: the resumed thread, and what it becomes. *)
Lemma step_inv (s s' : state) (e : event) :
  step s e = Some s' ->
  exists t c' t', nth_error (threads s) (who e) = Some t
                  /\ getOrScrapeData e (mem s) t = Some (c', t')
                  /\ s' = mkState c' (set_nth (who e) t' (threads s)).
Proof.
  unfold step. destruct (nth_error (threads s) (who e)) as [t|]; [|discriminate].
  destruct (getOrScrapeData e (mem s) t) as [[c' t']|] eqn:R; [|discriminate].
  intros [= <-]. exists t, c', t'. auto.
Qed.

(** The flag is set exactly while one call is between setting and clearing
    it. *)
Lemma step_one_refresher (s s' : state) (e : event) :
  step s e = Some s' ->
  count_pc refreshing s = flag (isScraping (mem s)) ->
  count_pc refreshing s' = flag (isScraping (mem s')).
Proof.
  intros Hs I. destruct (step_inv s s' e Hs) as (t & c' & t' & Ht & R & ->).
  pose proof (count_pc_step refreshing s (who e) c' t t' Ht) as K.
  simpl. unfold getOrScrapeData in R.
  destruct e as [i n1 n2|i r|i r|i n1|i]; destruct (at_pc t) as [| |k|k|w|res|err0] eqn:P;
    try discriminate; simpl in R, K.
  - unfold enter, waitForScrape in R.
    destruct (needsFreshData n1 (mem s)); simpl in R;
      [destruct (isScraping (mem s)) eqn:F; simpl in R|];
      [destruct (0 <? maxWait)%Z| |]; injection R as <- <-; simpl in *;
      rewrite ?F in *; simpl in *; lia.
  - unfold after_scrape in R. destruct r as [allOdds|err1];
      [destruct (List.length allOdds =? 0)|]; injection R as <- <-; simpl in *;
      destruct (isScraping (mem s)); simpl in *; lia.
  - unfold after_store in R. destruct r as [u|err1]; injection R as <- <-;
      simpl in *; destruct (isScraping (mem s)); simpl in *; lia.
  - unfold after_detect in R. injection R as <- <-.
    simpl in *; destruct (isScraping (mem s)); simpl in *; lia.
  - unfold after_timer, waitForScrape in R. injection R as <- <-.
    destruct (isScraping (mem s) && (w + 1000 <? maxWait)%Z); simpl in *; lia.
Qed.

Lemma step_pipeline (s s' : state) (e : event) :
  step s e = Some s' ->
  Forall pipeline (threads s) -> Forall pipeline (threads s').
Proof.
  intros Hs I. destruct (step_inv s s' e Hs) as (t & c' & t' & Ht & R & ->).
  pose proof (Forall_nth_error _ _ _ _ I Ht) as Pt.
  simpl. apply Forall_set_nth; [exact I|].
  unfold getOrScrapeData in R. unfold pipeline in Pt.
  destruct e as [i n1 n2|i r|i r|i n1|i]; destruct (at_pc t) as [| |k|k|w|res|err0] eqn:P;
    try discriminate; simpl in R.
  - unfold enter, waitForScrape in R.
    destruct (needsFreshData n1 (mem s)); simpl in R;
      [destruct (isScraping (mem s)); simpl in R|];
      [destruct (0 <? maxWait)%Z| |]; injection R as <- <-; reflexivity.
  - unfold after_scrape in R. destruct r as [allOdds|err1];
      [destruct (List.length allOdds =? 0)|]; injection R as <- <-;
      unfold pipeline; simpl; rewrite Pt; auto.
  - unfold after_store in R. destruct r as [u|err1]; injection R as <- <-;
      unfold pipeline; simpl; rewrite Pt; auto.
  - unfold after_detect in R. injection R as <- <-. exact Pt.
  - unfold after_timer, waitForScrape in R. injection R as <- <-.
    unfold pipeline. simpl.
    destruct (isScraping (mem s) && (w + 1000 <? maxWait)%Z); exact Pt.
Qed.

Lemma run_app (s : state) (tr1 tr2 : list event) :
  run s (tr1 ++ tr2) = match run s tr1 with
                       | Some s1 => run s1 tr2
                       | None => None
                       end.
Proof.
  revert s. induction tr1 as [|e r IH]; intro s; simpl; [reflexivity|].
  destruct (step s e); [apply IH|reflexivity].
Qed.

Lemma run_invariant (I : state -> Prop) :
  (forall s s' e, step s e = Some s' -> I s -> I s') ->
  forall tr s s', run s tr = Some s' -> I s -> I s'.
Proof.
  intros Hstep tr. induction tr as [|e r IH]; intros s s' H Hs; simpl in H.
  - now injection H as <-.
  - destruct (step s e) as [s1|] eqn:E; [|discriminate].
    apply (IH s1 s' H). now apply (Hstep s s1 e).
Qed.

Lemma init_threads (n : nat) (c : cache) (P : thread -> Prop) :
  P (mkThread Idle []) -> Forall P (threads (init n c)).
Proof.
  intro H. simpl. induction n; simpl; constructor; auto.
Qed.

Lemma init_count (n : nat) (c : cache) (f : pc -> bool) :
  f Idle = false -> count_pc f (init n c) = 0.
Proof.
  intro H. unfold count_pc. simpl. induction n; simpl; [reflexivity|].
  now rewrite H.
Qed.











End SingleFlight.

(** * Further properties of the code *)

(** ** The legs of a returned opportunity *)



(** X1: none of the three functions throws, on any array of rows: the
    first row is read for the team names only after a positive price was
    selected from some row, so [calculate2WayArbitrage([])] and
    [calculate3WayArbitrage([])] return null. *)
Theorem calculator_never_throws (odds : list odd) :
  calculateArbitrage odds <> Throws
  /\ calculate2WayArbitrage odds <> Throws
  /\ calculate3WayArbitrage odds <> Throws
  /\ calculate2WayArbitrage [] = Returns None
  /\ calculate3WayArbitrage [] = Returns None.
Proof.
  assert (T2 : calculate2WayArbitrage odds <> Throws).
  { destruct odds as [|o r]; [discriminate|].
    rewrite calculate2Way_unfold. cbv zeta.
    destruct (ge _ (Fin 1)); discriminate. }
  assert (T3 : calculate3WayArbitrage odds <> Throws).
  { destruct odds as [|o r]; [discriminate|].
    rewrite calculate3Way_unfold. cbv zeta.
    destruct (_ || _); [discriminate|]. destruct (ge _ (Fin 1)); discriminate. }
  repeat split; auto.
  unfold calculateArbitrage.
  destruct (List.length odds <? 2)%nat; [discriminate|].
  now destruct (hasDrawOdds odds).
Qed.







(** ** Equal payout *)





(** ** Stake amounts *)












(** ** More on the on-demand cache *)

Section Runs.
Import OnDemand Along.
Local Open Scope nat_scope.

Lemma nth_error_set_nth_other {A : Type} (i j : nat) (x : A) (l : list A) :
  i <> j -> nth_error (set_nth j x l) i = nth_error l i.
Proof.
  revert i j. induction l as [|a r IH]; intros [|i] [|j] H; simpl; auto.
  now contradiction H.
Qed.

Lemma polled_step (i : nat) (s s' : state) (e : event) (k : nat) :
  step s e = Some s' -> polled i s k -> polled i s' (k + timer_fires i [e]).
Proof.
  intros Hs J. destruct (step_inv s s' e Hs) as (t & c' & t' & Ht & R & ->).
  unfold polled in *. cbn [threads].
  destruct (Nat.eq_dec i (who e)) as [->|N].
  - rewrite (nth_error_set_nth _ _ _ _ Ht). rewrite Ht in J.
    unfold getOrScrapeData in R. unfold timer_fires.
    destruct e as [j n1 n2|j r|j r|j n1|j]; cbn [who filter List.length] in *;
      rewrite ?Nat.eqb_refl; cbn [List.length];
      destruct (at_pc t) as [| |m|m|w|res|err0]; try discriminate; simpl in R.
    + unfold enter, waitForScrape in R. simpl in J. subst k.
      destruct (needsFreshData n1 (mem s)); simpl in R;
        [destruct (isScraping (mem s)); simpl in R|];
        [destruct (0 <? maxWait)%Z| |]; injection R as <- <-; simpl; lia.
    + unfold after_scrape in R. destruct r as [allOdds|err1];
        [destruct (List.length allOdds =? 0)|]; injection R as <- <-; simpl in *; lia.
    + unfold after_store in R. destruct r as [u|err1]; injection R as <- <-;
        simpl in *; lia.
    + unfold after_detect in R. injection R as <- <-. simpl in *. lia.
    + unfold after_timer, waitForScrape in R. injection R as <- <-.
      cbn [waited_so_far] in J. destruct J as [Jw K]. unfold maxWait. cbn [at_pc].
      destruct (isScraping (mem s) && (w + 1000 <? 60000)%Z) eqn:C;
        cbn [waited_so_far].
      * apply andb_true_iff in C. destruct C as [_ C]. apply Z.ltb_lt in C. lia.
      * lia.
  - rewrite (nth_error_set_nth_other _ _ _ _ N).
    assert (F : timer_fires i [e] = 0).
    { unfold timer_fires. destruct e; simpl; auto.
      simpl in N. apply Nat.eqb_neq in N. now rewrite N. }
    rewrite F, Nat.add_0_r. exact J.
Qed.

Lemma timer_fires_cons (i : nat) (e : event) (tr : list event) :
  timer_fires i (e :: tr) = timer_fires i [e] + timer_fires i tr.
Proof.
  unfold timer_fires. simpl.
  destruct (match e with TimerFires j => i =? j | _ => false end); reflexivity.
Qed.

Lemma polled_run (i : nat) (tr : list event) :
  forall s s' k, run s tr = Some s' -> polled i s k ->
                 polled i s' (k + timer_fires i tr).
Proof.
  induction tr as [|e r IH]; intros s s' k H J; simpl in H.
  - injection H as <-. unfold timer_fires. simpl. now rewrite Nat.add_0_r.
  - destruct (step s e) as [s1|] eqn:E; [|discriminate].
    rewrite timer_fires_cons, Nat.add_assoc.
    apply (IH s1 s' _ H). exact (polled_step i s s1 e k E J).
Qed.

(** X6: a waiting call polls a bounded number of times. In every run, the
    timer of one call fires at most 60 times, whatever the other calls and the
    collaborators do; while the call polls, [waited] is 1000 times the number
    of firings and below 60000. *)
Theorem wait_is_bounded (n : nat) (c0 : cache) (tr : list event) (s : state) (i : nat) :
  run (init n c0) tr = Some s ->
  timer_fires i tr <= 60
  /\ forall t w, nth_error (threads s) i = Some t -> at_pc t = AwaitTimer w ->
                 w = (1000 * Z.of_nat (timer_fires i tr))%Z /\ (w < 60000)%Z.
Proof.
  intro H.
  assert (J0 : polled i (init n c0) 0).
  { unfold polled. destruct (nth_error (threads (init n c0)) i) as [t|] eqn:E;
      [|reflexivity].
    apply nth_error_In in E. simpl in E. apply repeat_spec in E. now subst t. }
  pose proof (polled_run i tr _ _ 0 H J0) as J. simpl in J.
  unfold polled in J. split.
  - destruct (nth_error (threads s) i) as [t|]; [|lia].
    unfold waited_so_far in J. destruct (at_pc t); lia.
  - intros t w Ht P. rewrite Ht in J. unfold waited_so_far in J. rewrite P in J.
    destruct J as [-> K]. split; [reflexivity|lia].
Qed.

Lemma wait_is_bounded_witness :
  timer_fires 1 DemoRuns.waiting_trace <= 60.
Proof.
  refine (proj1 (wait_is_bounded 2 Sample.never_scraped DemoRuns.waiting_trace _ 1
                   eq_refl)).
Defined.


Lemma Exists_set_nth_new {A : Type} (P : A -> Prop) (i : nat) (x y : A) (l : list A) :
  nth_error l i = Some y -> P x -> Exists P (set_nth i x l).
Proof.
  revert i. induction l as [|a r IH]; intros [|i]; simpl; try discriminate; intros H Hx.
  - now constructor.
  - apply Exists_cons_tl. now apply IH.
Qed.

Lemma Exists_set_nth_keep {A : Type} (P : A -> Prop) (i : nat) (x y : A) (l : list A) :
  Exists P l -> nth_error l i = Some y -> ~ P y -> Exists P (set_nth i x l).
Proof.
  intro E. revert i. induction E as [a r Ha|a r E IH]; intros [|i]; simpl;
    try discriminate.
  - intros [= ->] N. contradiction.
  - intros _ _. now constructor.
  - intros _ _. now apply Exists_cons_tl.
  - intros H N. apply Exists_cons_tl. now apply IH.
Qed.

(** What one resumption can do to the timestamp: nothing, unless it is the
    return of the detection, which ends the call with the scraped result. *)
Lemma resume_timestamp (e : event) (c c' : cache) (t t' : thread) :
  getOrScrapeData e c t = Some (c', t') ->
  ~ scraped t
  /\ (lastScrapeTime c' = lastScrapeTime c
      \/ exists now, e = DetectReturns (who e) now
                     /\ lastScrapeTime c' = Some now /\ scraped t').
Proof.
  unfold getOrScrapeData, scraped. intro R.
  destruct e as [i n1 n2|i r|i r|i n1|i]; destruct (at_pc t) as [| |k|k|w|res|err0] eqn:P;
    try discriminate; (split; [intros [m M]; discriminate|]); simpl in R.
  - left. unfold enter in R.
    destruct (needsFreshData n1 c); simpl in R;
      [destruct (isScraping c)|]; now injection R as <- <-.
  - left. unfold after_scrape in R. destruct r as [allOdds|err1];
      [destruct (List.length allOdds =? 0)|]; now injection R as <- <-.
  - left. unfold after_store in R. destruct r as [u|err1]; now injection R as <- <-.
  - right. unfold after_detect in R. injection R as <- <-. exists n1. simpl. eauto.
  - left. unfold after_timer in R. now injection R as <- <-.
Qed.

Lemma timestamp_step (c0 : cache) (pre : list event) (s s' : state) (e : event) :
  step s e = Some s' ->
  lastScrapeTime (mem s) = lastScrapeTime c0
  \/ (Exists scraped (threads s)
      /\ exists i now, In (DetectReturns i now) pre
                       /\ lastScrapeTime (mem s) = Some now) ->
  lastScrapeTime (mem s') = lastScrapeTime c0
  \/ (Exists scraped (threads s')
      /\ exists i now, In (DetectReturns i now) (pre ++ [e])
                       /\ lastScrapeTime (mem s') = Some now).
Proof.
  intros Hs I. destruct (step_inv s s' e Hs) as (t & c' & t' & Ht & R & ->).
  destruct (resume_timestamp _ _ _ _ _ R) as [N [E|(now & Ee & El & Sc)]]; cbn [mem threads].
  - rewrite E. destruct I as [I|(X & i & now & Hin & L)]; [now left|right]. split.
    + now apply Exists_set_nth_keep with t.
    + exists i, now. split; [apply in_or_app; now left|exact L].
  - right. split.
    + now apply Exists_set_nth_new with t.
    + exists (who e), now. split; [|exact El].
      apply in_or_app. right. rewrite <- Ee. now left.
Qed.

(** X7: the timestamp moves only on success. In every run, [lastScrapeTime]
    is the initial one, or it is the clock reading at the end of a detection
    and some call has returned [{ scraped: true, oddsCount }]; an empty fetch,
    a failure, a wait or a cache hit never changes it. *)
Theorem timestamp_moves_only_on_success (n : nat) (c0 : cache) (tr : list event)
    (s : state) :
  run (init n c0) tr = Some s ->
  lastScrapeTime (mem s) = lastScrapeTime c0
  \/ (Exists scraped (threads s)
      /\ exists i now, In (DetectReturns i now) tr
                       /\ lastScrapeTime (mem s) = Some now).
Proof.
  assert (G : forall tr pre s0 s1,
             run s0 tr = Some s1 ->
             lastScrapeTime (mem s0) = lastScrapeTime c0
             \/ (Exists scraped (threads s0)
                 /\ exists i now, In (DetectReturns i now) pre
                                  /\ lastScrapeTime (mem s0) = Some now) ->
             lastScrapeTime (mem s1) = lastScrapeTime c0
             \/ (Exists scraped (threads s1)
                 /\ exists i now, In (DetectReturns i now) (pre ++ tr)
                                  /\ lastScrapeTime (mem s1) = Some now)).
  { clear. intro tr. induction tr as [|e r IH]; intros pre s0 s1 H I; simpl in H.
    - injection H as <-. now rewrite app_nil_r.
    - destruct (step s0 e) as [s'|] eqn:E; [|discriminate].
      replace (pre ++ e :: r) with ((pre ++ [e]) ++ r)
        by (rewrite <- app_assoc; reflexivity).
      apply (IH _ s' s1 H). now apply timestamp_step with s0. }
  intro H. apply (G tr [] _ _ H). now left.
Qed.

Lemma timestamp_moves_only_on_success_witness :
  exists s, run (init 2 Sample.never_scraped) DemoRuns.waiting_trace = Some s
            /\ lastScrapeTime (mem s) = None.
Proof.
  eexists. split; [reflexivity|].
  destruct (timestamp_moves_only_on_success 2 Sample.never_scraped
              DemoRuns.waiting_trace _ eq_refl) as [E|(_ & i & now & Hin & _)].
  - exact E.
  - reflexivity.
Defined.


Lemma reachable_pipeline (n : nat) (c0 : cache) (tr : list event) (s : state) :
  run (init n c0) tr = Some s -> Forall pipeline (threads s).
Proof.
  intro H.
  apply (run_invariant (fun s => Forall pipeline (threads s)) step_pipeline _ _ _ H).
  now apply init_threads.
Qed.

Lemma idle_did_nothing (s : state) (j : nat) (t : thread) :
  Forall pipeline (threads s) -> nth_error (threads s) j = Some t ->
  at_pc t = Idle -> did t = [].
Proof.
  intros F Ht P. pose proof (Forall_nth_error _ _ _ _ F Ht) as Q.
  unfold pipeline in Q. now rewrite P in Q.
Qed.

Lemma needsFreshData_timestamp (now : Z) (c c' : cache) :
  lastScrapeTime c' = lastScrapeTime c -> needsFreshData now c' = needsFreshData now c.
Proof. unfold needsFreshData. now intros ->. Qed.

(** X8: a refresh that ends without success is retried by the next call.
    When a fetch comes back empty or fails, or the store fails, the flag is
    cleared and the timestamp is left as it was, so a call made next, at a
    time at which the data was stale, begins a fetch of its own instead of
    waiting or answering from the cache. *)
Theorem soft_failure_is_retried (n : nat) (c0 : cache) (tr : list event)
    (s s1 : state) (e : event) (j : nat) (tj : thread) (now now' : Z) :
  run (init n c0) tr = Some s ->
  step s e = Some s1 ->
  soft_failure e = true ->
  nth_error (threads s1) j = Some tj ->
  at_pc tj = Idle ->
  needsFreshData now (mem s) = true ->
  isScraping (mem s1) = false
  /\ lastScrapeTime (mem s1) = lastScrapeTime (mem s)
  /\ exists s2, step s1 (Call j now now') = Some s2
                /\ nth_error (threads s2) j = Some (mkThread AwaitScrape [Fetch])
                /\ isScraping (mem s2) = true
                /\ fetches s2 = fetches s1 + 1.
Proof.
  intros Hrun Hs Hsoft Htj Pj Hstale.
  assert (Pl1 : Forall pipeline (threads s1)).
  { apply (step_pipeline s s1 e Hs). now apply reachable_pipeline with n c0 tr. }
  pose proof (idle_did_nothing s1 j tj Pl1 Htj Pj) as Dj.
  assert (M : mem s1 = set_scraping false (mem s)).
  { destruct (step_inv s s1 e Hs) as (t & c' & t' & Ht & R & ->). cbn [mem].
    unfold getOrScrapeData in R.
    destruct e as [i n1 n2|i r|i r|i n1|i]; try discriminate Hsoft;
      destruct (at_pc t) as [| |k|k|w|res|err0]; try discriminate; simpl in R, Hsoft.
    - unfold after_scrape in R. destruct r as [allOdds|err1].
      + rewrite Hsoft in R. now injection R as <- <-.
      + now injection R as <- <-.
    - unfold after_store in R. destruct r as [u|err1]; [discriminate|].
      now injection R as <- <-. }
  split; [now rewrite M|]. split; [now rewrite M|].
  assert (N : needsFreshData now (mem s1) = true).
  { rewrite <- Hstale. apply needsFreshData_timestamp. now rewrite M. }
  assert (E : enter now now' (mem s1)
              = (set_scraping true (mem s1), mkThread AwaitScrape [Fetch])).
  { unfold enter. rewrite N. rewrite M. reflexivity. }
  eexists. split.
  - unfold step. cbn [who]. rewrite Htj. unfold getOrScrapeData. rewrite Pj, E.
    reflexivity.
  - split; [now apply nth_error_set_nth with tj|]. split; [reflexivity|].
    pose proof (fetches_step s1 j (set_scraping true (mem s1)) tj
                  (mkThread AwaitScrape [Fetch]) Htj) as K.
    rewrite Dj in K. unfold count_action in K. simpl in K. cbn [who]. lia.
Qed.

Lemma soft_failure_is_retried_witness :
  exists s2, step (mkState (mkCache None false)
                     [mkThread (Rejected "timeout"%string) [Fetch]; mkThread Idle []])
               (Call 1 7000 7000) = Some s2
             /\ fetches s2 = 2.
Proof.
  destruct (soft_failure_is_retried 2 Sample.never_scraped DemoRuns.fetch_fails
              _ _ (ScrapeSettles 0 (Failed "timeout"%string)) 1 _ 7000%Z 7000%Z
              eq_refl eq_refl eq_refl eq_refl eq_refl eq_refl)
    as (_ & _ & s2 & S & _ & _ & F).
  exists s2. split; [exact S|exact F].
Defined.

Lemma count_zero (f : pc -> bool) (s : state) (i : nat) (t : thread) :
  count_pc f s = 0 -> nth_error (threads s) i = Some t -> f (at_pc t) = false.
Proof.
  unfold count_pc. intros C Ht. apply nth_error_In in Ht.
  destruct (f (at_pc t)) eqn:F; [|reflexivity].
  assert (I : In t (filter (fun t => f (at_pc t)) (threads s)))
    by (apply filter_In; auto).
  destruct (filter (fun t => f (at_pc t)) (threads s)); [contradiction|discriminate].
Qed.

(** Within the window after a refresh nothing is fetched and the cache
    stays as the refresh left it. *)
Lemma fresh_step (T : Z) (s s' : state) (e : event) :
  T <> 0%Z ->
  step s e = Some s' ->
  calls_within T [e] = true ->
  mem s = mkCache (Some T) false ->
  count_pc refreshing s = 0 ->
  Forall pipeline (threads s) ->
  mem s' = mkCache (Some T) false /\ fetches s' = fetches s.
Proof.
  intros HT Hs Hw M C Pl.
  destruct (step_inv s s' e Hs) as (t & c' & t' & Ht & R & ->).
  pose proof (count_zero refreshing s _ t C Ht) as NR.
  pose proof (fetches_step s (who e) c' t t' Ht) as K.
  pose proof (Forall_nth_error _ _ _ _ Pl Ht) as Pt. unfold pipeline in Pt.
  cbn [mem]. unfold getOrScrapeData in R.
  destruct e as [i n1 n2|i r|i r|i n1|i]; destruct (at_pc t) as [| |k|k|w|res|err0];
    try discriminate; simpl in R.
  - simpl in Hw. rewrite andb_true_r in Hw. apply Z.leb_le in Hw.
    unfold enter, needsFreshData in R. rewrite M in R. cbn [lastScrapeTime] in R.
    apply Z.eqb_neq in HT. rewrite HT in R.
    assert (F : (CACHE_DURATION <? n1 - T)%Z = false) by (apply Z.ltb_ge; lia).
    rewrite F in R. simpl in R. injection R as <- <-.
    split; [reflexivity|]. rewrite Pt in K. unfold count_action in K.
    cbn [who did filter List.length] in *. lia.
  - unfold after_timer in R. injection R as <- <-. split; [exact M|].
    cbn [who did] in *. lia.
Qed.

(** X9: after a successful refresh the cache is served. Once a call has
    completed fetch, store and detection at clock reading [T] (not 0), then,
    whatever the interleaving of calls and timers that follows, as long as
    every call is made no later than 30 minutes after [T], the fetch is not
    invoked again and the cache keeps timestamp [T] with the flag cleared. *)
Theorem fresh_after_success (n : nat) (c0 : cache) (tr0 tr : list event)
    (s s1 s2 : state) (i : nat) (T : Z) :
  isScraping c0 = false ->
  run (init n c0) tr0 = Some s ->
  step s (DetectReturns i T) = Some s1 ->
  T <> 0%Z ->
  run s1 tr = Some s2 ->
  calls_within T tr = true ->
  mem s2 = mkCache (Some T) false /\ fetches s2 = fetches s1.
Proof.
  intros F0 Hrun Hs HT Hrun2 Hw.
  assert (R1 : run (init n c0) (tr0 ++ [DetectReturns i T]) = Some s1).
  { rewrite run_app, Hrun. simpl. now rewrite Hs. }
  assert (M1 : mem s1 = mkCache (Some T) false).
  { destruct (step_inv _ _ _ Hs) as (t & c' & t' & Ht & R & ->). cbn [mem].
    unfold getOrScrapeData in R. destruct (at_pc t); try discriminate.
    unfold after_detect in R. now injection R as <- <-. }
  assert (C1 : count_pc refreshing s1 = 0).
  { replace 0 with (flag (isScraping (mem s1))) by now rewrite M1.
    apply (run_invariant
             (fun s => count_pc refreshing s = flag (isScraping (mem s)))
             step_one_refresher _ _ _ R1).
    rewrite init_count; [|reflexivity]. simpl. now rewrite F0. }
  pose proof (reachable_pipeline _ _ _ _ R1) as P1.
  clear Hrun Hs R1. revert s1 Hrun2 M1 C1 P1.
  induction tr as [|e r IH]; intros s1 Hrun2 M1 C1 P1; simpl in Hrun2.
  - injection Hrun2 as <-. auto.
  - destruct (step s1 e) as [s'|] eqn:E; [|discriminate].
    simpl in Hw. apply andb_true_iff in Hw. destruct Hw as [Hw Hw'].
    assert (Hw1 : calls_within T [e] = true) by (simpl; now rewrite Hw).
    destruct (fresh_step T s1 s' e HT E Hw1 M1 C1 P1) as [M' F'].
    rewrite <- F'. apply (IH Hw' s' Hrun2 M').
    + pose proof (step_one_refresher s1 s' e E) as Q.
      rewrite M1, M' in Q. simpl in Q. now apply Q.
    + now apply (step_pipeline s1 s' e).
Qed.

Lemma fresh_after_success_witness :
  exists s2, run (mkState (mkCache (Some 9000%Z) false)
                    [mkThread (Resolved (Scraped 2)) [Fetch; Store; Detect];
                     mkThread Idle []])
               [Call 1 20000 20000] = Some s2
             /\ fetches s2 = 1.
Proof.
  eexists. split; [reflexivity|].
  refine (proj2 (fresh_after_success 2 Sample.never_scraped DemoRuns.refreshed
                   [Call 1 20000 20000] _ _ _ 0 9000%Z
                   eq_refl eq_refl eq_refl _ eq_refl eq_refl)).
  discriminate.
Defined.

End Runs.

(** ** The normal form of team names *)

Lemma lower_char_plain (c : ascii) :
  Str.is_space (Str.lower_char c) = Str.is_space c
  /\ Str.lower_char (Str.lower_char c) = Str.lower_char c.
Proof.
  destruct c as [[] [] [] [] [] [] [] []]; split; reflexivity.
Qed.

Lemma all_chars_app (f : ascii -> bool) (s1 s2 : string) :
  Chars.all_chars f (s1 ++ s2) = Chars.all_chars f s1 && Chars.all_chars f s2.
Proof.
  induction s1 as [|c r IH]; simpl; [reflexivity|]. now rewrite IH, andb_assoc.
Qed.

Lemma replace_spaces_plain (b : bool) (s : string) :
  Chars.all_chars (fun c => Ascii.eqb (Str.lower_char c) c) s = true ->
  Chars.all_chars Chars.plain (Str.replace_spaces b s) = true.
Proof.
  revert b. induction s as [|c r IH]; intros b H; simpl in *; [reflexivity|].
  apply andb_true_iff in H. destruct H as [Hc Hr].
  destruct (Str.is_space c) eqn:S.
  - destruct b; simpl; auto.
  - simpl. rewrite (IH false Hr), andb_true_r. unfold Chars.plain. now rewrite S, Hc.
Qed.

Lemma toLowerCase_lowered (s : string) :
  Chars.all_chars (fun c => Ascii.eqb (Str.lower_char c) c) (Str.toLowerCase s) = true.
Proof.
  induction s as [|c r IH]; simpl; [reflexivity|]. rewrite IH, andb_true_r.
  apply Ascii.eqb_eq. apply lower_char_plain.
Qed.

Lemma normalize_plain (t : string) :
  Chars.all_chars Chars.plain (Str.normalize t) = true.
Proof. apply replace_spaces_plain, toLowerCase_lowered. Qed.

Lemma plain_fixed (b : bool) (s : string) :
  Chars.all_chars Chars.plain s = true ->
  Str.toLowerCase s = s /\ Str.replace_spaces b s = s.
Proof.
  revert b. induction s as [|c r IH]; intros b H; simpl in *; [auto|].
  apply andb_true_iff in H. destruct H as [Hc Hr].
  unfold Chars.plain in Hc. apply andb_true_iff in Hc. destruct Hc as [S L].
  apply negb_true_iff in S. apply Ascii.eqb_eq in L.
  destruct (IH false Hr) as [E1 E2]. rewrite S, L, E1, E2. auto.
Qed.

Lemma normalize_idempotent (t : string) :
  Str.normalize (Str.normalize t) = Str.normalize t.
Proof.
  unfold Str.normalize at 1.
  destruct (plain_fixed false (Str.normalize t) (normalize_plain t)) as [E1 E2].
  now rewrite E1, E2.
Qed.

(** X10: the identifier is in normal form. Whatever the two names, the
    identifier of the Odds API scraper contains no white space and no letter
    that lower-casing would change, and normalising the names beforehand
    (lower case, runs of white space replaced by a dash) gives the same
    identifier. *)
Theorem generateMatchId_normal_form (a b : string) :
  Chars.all_chars Chars.plain (OddsApi.generateMatchId a b) = true
  /\ OddsApi.generateMatchId (Str.normalize a) (Str.normalize b)
     = OddsApi.generateMatchId a b
  /\ OddsApi.generateMatchId (Str.toLowerCase a) (Str.toLowerCase b)
     = OddsApi.generateMatchId a b.
Proof.
  split; [|split].
  - unfold OddsApi.generateMatchId, Str.join, Str.sort. cbn [map fold_right Str.insert].
    destruct (String.leb (Str.normalize a) (Str.normalize b));
      cbn [String.concat]; rewrite !all_chars_app, !normalize_plain; reflexivity.
  - unfold OddsApi.generateMatchId. cbn [map]. now rewrite !normalize_idempotent.
  - unfold OddsApi.generateMatchId. cbn [map]. unfold Str.normalize.
    assert (L : forall s, Str.toLowerCase (Str.toLowerCase s) = Str.toLowerCase s).
    { induction s as [|c r IH]; simpl; [reflexivity|].
      rewrite IH. f_equal. apply lower_char_plain. }
    now rewrite !L.
Qed.

(** ** The mock data *)

(** Rounding keeps a value between two bounds that are whole numbers of
    cents. *)
Lemma toFixed2_between (za zb : Z) (q : Q) :
  (0 <= za)%Z ->
  inject_Z za * (1 # 100) <= q -> q <= inject_Z zb * (1 # 100) ->
  q < inject_Z (10 ^ 21) ->
  exists r, toFixed2 (Fin q) = Fin r
            /\ inject_Z za * (1 # 100) <= r /\ r <= inject_Z zb * (1 # 100).
Proof.
  intros Hza La Ub Hbig.
  assert (Q0 : 0 <= q).
  { rewrite Zle_Qle in Hza. change (inject_Z 0) with 0 in Hza. lra. }
  rewrite (toFixed2_small q Q0 Hbig). eexists. split; [reflexivity|].
  destruct (cents_bounds q Q0) as [L U].
  assert (A : (za <= cents (Qabs q))%Z).
  { unfold cents. rewrite <- (Qfloor_Z za). apply Qfloor_resp_le.
    rewrite (Qabs_pos q Q0). lra. }
  assert (B : (cents (Qabs q) < zb + 1)%Z).
  { rewrite Zlt_Qlt, inject_Z_plus.
    assert (K : inject_Z 1 == 1) by reflexivity. rewrite K. lra. }
  assert (B' : (cents (Qabs q) <= zb)%Z) by lia.
  rewrite Zle_Qle in A, B'. rewrite (hundredths (cents (Qabs q))). split; lra.
Qed.

Lemma mock_price (ra rb : Q) :
  0 <= ra -> ra < 1 -> 0 <= rb -> rb < 1 ->
  MockData.between 1.35 4.65
    (toFixed2 (add (add (Fin 1.5) (mul (Fin ra) (Fin 3)))
                   (mul (sub (Fin rb) (Fin 0.5)) (Fin 0.3))))
  /\ MockData.between 1.35 4.65
       (toFixed2 (sub (add (Fin 1.5) (mul (Fin ra) (Fin 3)))
                      (mul (sub (Fin rb) (Fin 0.5)) (Fin 0.3)))).
Proof.
  intros A0 A1 B0 B1. cbn [add mul sub neg].
  assert (K : 5 < inject_Z (10 ^ 21)) by reflexivity.
  assert (Ka : inject_Z 135 * (1 # 100) == 1.35) by reflexivity.
  assert (Kb : inject_Z 465 * (1 # 100) == 4.65) by reflexivity.
  split.
  - destruct (toFixed2_between 135 465 (1.5 + ra * 3 + (rb + - 0.5) * 0.3))
      as (r & E & L & U); [lia|rewrite Ka; lra|rewrite Kb; lra|lra|].
    exists r. split; [exact E|]. rewrite Ka in L. rewrite Kb in U. split; lra.
  - destruct (toFixed2_between 135 465 (1.5 + ra * 3 + - ((rb + - 0.5) * 0.3)))
      as (r & E & L & U); [lia|rewrite Ka; lra|rewrite Kb; lra|lra|].
    exists r. split; [exact E|]. rewrite Ka in L. rewrite Kb in U. split; lra.
Qed.

Lemma mock_draw (r : Q) :
  0 <= r -> r < 1 ->
  MockData.between 3 5 (toFixed2 (add (Fin 3) (mul (Fin r) (Fin 2)))).
Proof.
  intros A0 A1. cbn [add mul].
  assert (K : 5 < inject_Z (10 ^ 21)) by reflexivity.
  assert (Ka : inject_Z 300 * (1 # 100) == 3) by reflexivity.
  assert (Kb : inject_Z 500 * (1 # 100) == 5) by reflexivity.
  destruct (toFixed2_between 300 500 (3 + r * 2)) as (x & E & L & U);
    [lia|rewrite Ka; lra|rewrite Kb; lra|lra|].
  exists x. split; [exact E|]. rewrite Ka in L. rewrite Kb in U. split; lra.
Qed.

Lemma mockRow_prices (cfg : MockData.sportConfig) (m : MockData.mockMatch)
    (b : string) (rnd : nat -> num) (k : nat) :
  MockData.unit_interval rnd ->
  MockData.mock_prices cfg (MockData.quote (fst (MockData.mockRow cfg m b rnd k)))
  /\ MockData.sport (fst (MockData.mockRow cfg m b rnd k)) = MockData.name cfg
  /\ bookmaker (MockData.quote (fst (MockData.mockRow cfg m b rnd k))) = b.
Proof.
  intro R. unfold MockData.mockRow, MockData.mock_prices. cbn [fst MockData.quote
    MockData.sport odds1 odds2 draw_odds bookmaker].
  destruct (R k) as (r1 & -> & ? & ?). destruct (R (S k)) as (r2 & -> & ? & ?).
  destruct (R (S (S k))) as (r3 & -> & ? & ?).
  destruct (R (S (S (S k)))) as (r4 & -> & ? & ?).
  split; [|split; reflexivity]. split; [|split].
  - now apply mock_price.
  - now apply mock_price.
  - destruct (MockData.has_draw cfg); [|reflexivity].
    eexists. split; [reflexivity|]. now apply mock_draw.
Qed.

Lemma forBookmakers_rows (cfg : MockData.sportConfig) (m : MockData.mockMatch)
    (rnd : nat -> num) (bks : list string) :
  MockData.unit_interval rnd ->
  forall k,
  Forall (fun row => MockData.mock_prices cfg (MockData.quote row)
                     /\ MockData.sport row = MockData.name cfg)
         (fst (MockData.forBookmakers cfg m bks rnd k))
  /\ map (fun row => bookmaker (MockData.quote row))
         (fst (MockData.forBookmakers cfg m bks rnd k)) = bks.
Proof.
  intro R. induction bks as [|b r IH]; intro k; [simpl; auto|].
  cbn [MockData.forBookmakers].
  destruct (mockRow_prices cfg m b rnd k R) as (P & S & B).
  destruct (MockData.mockRow cfg m b rnd k) as [row k1].
  specialize (IH k1).
  destruct (MockData.forBookmakers cfg m r rnd k1) as [rows k2].
  cbn [fst map] in *. destruct IH as [F M]. split.
  - constructor; auto.
  - now rewrite B, M.
Qed.

Lemma forMatches_rows (cfg : MockData.sportConfig) (rnd : nat -> num)
    (ms : list MockData.mockMatch) :
  MockData.unit_interval rnd ->
  forall k,
  Forall (fun row => MockData.mock_prices cfg (MockData.quote row)
                     /\ MockData.sport row = MockData.name cfg)
         (MockData.forMatches cfg ms rnd k)
  /\ List.length (MockData.forMatches cfg ms rnd k) = (10 * List.length ms)%nat.
Proof.
  intro R. induction ms as [|m r IH]; intro k; [simpl; auto|].
  cbn [MockData.forMatches].
  pose proof (forBookmakers_rows cfg m rnd MockData.bookmakers R k) as [F M].
  destruct (MockData.forBookmakers cfg m MockData.bookmakers rnd k) as [rows k1].
  cbn [fst] in F, M. destruct (IH k1) as [F' L']. split.
  - apply Forall_app. auto.
  - rewrite length_app, L'.
    rewrite <- (length_map (fun row => bookmaker (MockData.quote row)) rows), M.
    change (List.length MockData.bookmakers) with 10%nat. cbn [List.length]. lia.
Qed.

Lemma mapMatches_length (teams : list (string * string)) (i : nat) (now : Z)
    (clock : nat -> N) :
  List.length (MockData.mapMatches teams i now clock) = List.length teams.
Proof.
  revert i. induction teams as [|[a b] r IH]; intro i; simpl; [reflexivity|].
  now rewrite IH.
Qed.

(** X11: the mock data are well-formed odds. For a configured sport and
    random numbers in [0, 1), every generated row has home and away prices
    between 1.35 and 4.65, a draw price between 3.00 and 5.00 exactly when
    the sport has draws (null otherwise), and carries the sport's name; every
    match gets one row from each of the ten bookmakers, so at least 30 rows
    are generated. *)
Theorem mock_odds_are_well_formed (cfg : MockData.sportConfig) (now : Z)
    (clock : nat -> N) (rnd : nat -> num) :
  In cfg MockData.SPORTS_CONFIG ->
  MockData.unit_interval rnd ->
  Forall (fun row => MockData.mock_prices cfg (MockData.quote row)
                     /\ MockData.sport row = MockData.name cfg)
         (MockData.generateMockOdds cfg now clock rnd)
  /\ List.length (MockData.generateMockOdds cfg now clock rnd)
     = (10 * List.length (MockData.teamsByPort (MockData.name cfg)))%nat
  /\ (30 <= List.length (MockData.generateMockOdds cfg now clock rnd))%nat.
Proof.
  intros Hin R. unfold MockData.generateMockOdds, MockData.generateMockMatches.
  destruct (forMatches_rows cfg rnd
              (MockData.mapMatches (MockData.teamsByPort (MockData.name cfg)) 0 now clock)
              R 0%nat) as [F L].
  rewrite mapMatches_length in L. split; [exact F|]. split; [exact L|].
  rewrite L. simpl in Hin.
  destruct Hin as [<-|[<-|[<-|[<-|[<-|[]]]]]]; simpl; lia.
Qed.

Lemma mock_odds_are_well_formed_witness :
  (30 <= List.length
           (MockData.generateMockOdds
              (MockData.mkSport "tennis" "https://www.oddschecker.com/tennis" false)
              0 (fun _ => 0%N) MockData.halves))%nat.
Proof.
  refine (proj2 (proj2 (mock_odds_are_well_formed _ 0 (fun _ => 0%N) MockData.halves
                          _ _))).
  - right; right; left; reflexivity.
  - intro k. exists 0.5. repeat split; discriminate.
Defined.

(** ** Stored and presented opportunities *)




(** ** The detection loop *)



(** ** API keys *)

Section ApiKeys.
Import Auth.
Local Open Scope Z_scope.

Lemma authenticate_step (t : table) (req : request) (key : string) (k0 : apiKey) :
  t key = Some k0 ->
  exists k1,
    snd (authenticateApiKey t req) key = Some k1
    /\ requests_limit k1 = requests_limit k0
    /\ requests_used k1
       = requests_used k0
         + (if let_through key req (fst (authenticateApiKey t req)) then 1 else 0)
    /\ (let_through key req (fst (authenticateApiKey t req)) = true ->
        requests_used k0 < requests_limit k0).
Proof.
  intro Hk. unfold authenticateApiKey, let_through.
  assert (Same : exists k1, t key = Some k1 /\ requests_limit k1 = requests_limit k0
                            /\ requests_used k1 = requests_used k0 + 0
                            /\ (false = true -> requests_used k0 < requests_limit k0)).
  { exists k0. split; [exact Hk|]. split; [reflexivity|]. split; [lia|discriminate]. }
  destruct (x_api_key req) as [h|] eqn:X; simpl; [|exact Same].
  destruct (h =? "")%string; simpl; rewrite ?X; [exact Same|].
  destruct (validate_fails req); simpl; rewrite ?X; [exact Same|].
  unfold validateApiKey. destruct (t h) as [kh|] eqn:Th; simpl; rewrite ?X;
    [|exact Same].
  destruct (requests_limit kh <=? requests_used kh) eqn:Lim; simpl; rewrite ?X;
    [exact Same|].
  destruct (increment_fails req); simpl; rewrite ?X; [exact Same|].
  unfold incrementApiKeyUsage. rewrite (String.eqb_sym key h).
  destruct (h =? key)%string eqn:E.
  - apply String.eqb_eq in E. subst h. rewrite Th. rewrite Hk in Th.
    injection Th as <-. eexists. split; [reflexivity|]. simpl.
    apply Z.leb_gt in Lim. split; [reflexivity|]. split; [reflexivity|]. auto.
  - exists k0. split; [exact Hk|]. split; [reflexivity|]. split; [lia|discriminate].
Qed.

(** X14: a key is let through only up to its limit. When requests are
    handled one after the other, whatever the keys they carry and whichever
    queries fail, the usage counter of a key grows by exactly the number of
    requests let through with that key, its limit is never changed, and a key
    that starts at or below its limit never gets above it: at most
    [requests_limit - requests_used] requests pass. *)
Theorem usage_never_exceeds_limit (t : table) (reqs : list request)
    (key : string) (k0 : apiKey) :
  t key = Some k0 ->
  exists k1,
    snd (serve t reqs) key = Some k1
    /\ requests_limit k1 = requests_limit k0
    /\ requests_used k1
       = requests_used k0 + Z.of_nat (passed key reqs (fst (serve t reqs)))
    /\ (requests_used k0 <= requests_limit k0 ->
        requests_used k1 <= requests_limit k0).
Proof.
  revert t k0. induction reqs as [|req rest IH]; intros t k0 Hk.
  - exists k0. simpl. repeat split; auto; lia.
  - cbn [serve].
    destruct (authenticate_step t req key k0 Hk) as (k1 & H1 & L1 & U1 & B1).
    destruct (authenticateApiKey t req) as [resp t1]. cbn [fst snd] in *.
    destruct (IH t1 k1 H1) as (k2 & H2 & L2 & U2 & B2).
    destruct (serve t1 rest) as [resps t2]. cbn [fst snd passed] in *.
    exists k2. split; [exact H2|]. split; [congruence|]. split.
    + rewrite U2, U1. destruct (let_through key req resp); lia.
    + intro Le. rewrite <- L1. apply B2. rewrite L1.
      destruct (let_through key req resp); [specialize (B1 eq_refl)|]; lia.
Qed.

Lemma usage_never_exceeds_limit_witness :
  exists k1, snd (serve demo_table demo_requests) "demo_key_12345"%string = Some k1
             /\ requests_used k1 <= 10000.
Proof.
  destruct (usage_never_exceeds_limit demo_table demo_requests
              "demo_key_12345"%string _ eq_refl) as (k1 & H & _ & _ & B).
  exists k1. split; [exact H|]. apply B. simpl. lia.
Defined.

End ApiKeys.

(** ** The odds table *)

Section Upserts.
Import OddsTable.







End Upserts.
